(** * Employee sentiment notebook: monthly scores, rankings, flight risk

    A shallow embedding of the data cells of [Employee.ipynb]:
    the monthly score table ([monthly_scores]), the two monthly rankings
    ([top_3_pos], [top_3_neg]), the flight-risk loop ([flight_risk]) and the
    feature table of the modelling cell ([features]).

    The data frame [df] is a list of rows in frame order.  A pandas
    [Timestamp] is the integer count of nanoseconds since the epoch, [NaT]
    is [None]; a monthly [Period] is its ordinal (months since 1970-01). *)

From Stdlib Require Import QArith Qcanon Lqa.
From stdpp Require Import base list sorting gmap strings numbers.

Local Open Scope Z_scope.
#[local] Set Warnings "-clear-no-such-hyp".

(** ** The data frame *)

Inductive sentiment := Positive | Negative | Neutral.

Global Instance sentiment_eq_dec : EqDecision sentiment.
Proof. solve_decision. Defined.

(** One row of [df] after the labelling cell: the columns [employee]
    (a copy of [from]), [date] (after [pd.to_datetime(..., errors='coerce')],
    so an unparsable date is [NaT]), [sentiment_label], and [body]
    (a missing body is NaN, here [None]). *)
Record row := Row {
  employee : string;
  date : option Z;
  sentiment_label : sentiment;
  body : option string
}.

(** ** Time *)

Definition ns_per_day : Z := 86400000000000.

(** Whole days from [b] to [a]: the floor of the difference in days. *)
Definition days_between (a b : Z) : Z := (a - b) / ns_per_day.

(** [(a - b).days]: the [days] field of a [Timedelta] is the floor of the
    difference in days; when either side is [NaT] it is NaN, here [None]. *)
Definition timedelta_days (a b : option Z) : option Z :=
  match a, b with
  | Some x, Some y => Some (days_between x y)
  | _, _ => None
  end.

(** Days since the epoch to (year, month), proleptic Gregorian calendar. *)
Definition civil_from_days (z0 : Z) : Z * Z :=
  let z := z0 + 719468 in
  let era := z / 146097 in
  let doe := z - era * 146097 in
  let yoe := (doe - doe / 1460 + doe / 36524 - doe / 146096) / 365 in
  let doy := doe - (365 * yoe + yoe / 4 - yoe / 100) in
  let mp := (5 * doy + 2) / 153 in
  let m := if mp <? 10 then mp + 3 else mp - 9 in
  let y := yoe + era * 400 + (if m <=? 2 then 1 else 0) in
  (y, m).

(** [ts.to_period('M')] as the period's ordinal. *)
Definition to_period_M (ts : Z) : Z :=
  let '(y, m) := civil_from_days (ts / ns_per_day) in
  (y - 1970) * 12 + (m - 1).

(** The [month] column: [df['date'].dt.to_period('M')], [NaT] stays [NaT]. *)
Definition month (r : row) : option Z := to_period_M <$> date r.

(** ** Orders of [sort_values] and [groupby] *)

(** Sorting on several columns compares the first column and, on rows the
    first column does not separate, the remaining ones. *)
Definition lex_le {A B} (R1 : relation A) (R2 : relation B) : relation (A * B) :=
  λ p q, R1 p.1 q.1 ∧ (R1 q.1 p.1 → R2 p.2 q.2).

Global Instance lex_le_dec {A B} (R1 : relation A) (R2 : relation B)
  `{!RelDecision R1, !RelDecision R2} : RelDecision (lex_le R1 R2).
Proof. intros p q. unfold lex_le. apply _. Defined.

(** A nullable date column sorts ascending with [NaT] last. *)
Definition date_le (a b : option Z) : Prop :=
  match a, b with
  | Some x, Some y => x ≤ y
  | _, None => True
  | None, Some _ => False
  end.

Global Instance date_le_dec : RelDecision date_le.
Proof. intros [x|] [y|]; simpl; apply _. Defined.

(** Order of [sort_values(['employee','date'])]. *)
Definition neg_le : relation (string * option Z) := lex_le String.le date_le.

(** Key order of [groupby(['employee','month'])]. *)
Definition key_le : relation (string * Z) := lex_le String.le Z.le.

(** ** Monthly sentiment score (cell 3) *)

Definition score_mapper (label : sentiment) : Z :=
  match label with
  | Positive => 1
  | Negative => -1
  | Neutral => 0
  end.

(** The [score] column: [df['sentiment_label'].map(score_mapper)]. *)
Definition score (r : row) : Z := score_mapper (sentiment_label r).

Definition sum_Z (xs : list Z) : Z := foldr Z.add 0 xs.

(** [groupby(['employee','month'])]: the distinct keys in ascending order;
    a row whose month is [NaT] has no key and is in no group. *)
Definition group_keys (df : list row) : list (string * Z) :=
  merge_sort key_le
    (remove_dups (omap (λ r, m ← month r; Some (employee r, m)) df)).

Definition group_rows (df : list row) (k : string * Z) : list row :=
  filter (λ r, employee r = k.1 ∧ month r = Some k.2) df.

(** A row of [monthly_scores]: columns [employee], [month], [score]. *)
Record score_row := ScoreRow {
  ms_employee : string;
  ms_month : Z;
  ms_score : Z
}.

Global Instance score_row_eq_dec : EqDecision score_row.
Proof. solve_decision. Defined.

(** [df.groupby(['employee','month'])['score'].sum().reset_index()] *)
Definition monthly_scores (df : list row) : list score_row :=
  (λ k, ScoreRow k.1 k.2 (sum_Z (score <$> group_rows df k))) <$> group_keys df.

(** ** Employee ranking (cell 4) *)

Inductive direction := best | worst.

(** The [score] column sorts descending for the best ranking
    ([ascending=[True, False, True]]) and ascending for the worst. *)
Definition score_le (d : direction) (a b : Z) : Prop :=
  match d with
  | best => b ≤ a
  | worst => a ≤ b
  end.

Global Instance score_le_dec d : RelDecision (score_le d).
Proof. intros a b. destruct d; simpl; apply _. Defined.

Definition rank_key (r : score_row) : Z * (Z * string) :=
  (ms_month r, (ms_score r, ms_employee r)).

(** Order of [sort_values(['month','score','employee'], ascending=...)]. *)
Definition rank_le (d : direction) (a b : score_row) : Prop :=
  lex_le Z.le (lex_le (score_le d) String.le) (rank_key a) (rank_key b).

Global Instance rank_le_dec d : RelDecision (rank_le d).
Proof. intros a b. unfold rank_le. apply _. Defined.

Definition group_size (t : list score_row) (m : Z) : nat :=
  length (filter (λ x, ms_month x = m) t).

(** The mask of a grouped [head]: a row stays when its running position
    within its month group is below the group's limit. [seen] holds the
    rows already passed. Rows keep the frame's order. *)
Fixpoint head_from (limit : Z → Z) (seen t : list score_row) : list score_row :=
  match t with
  | [] => []
  | r :: t' =>
      if decide (Z.of_nat (group_size seen (ms_month r)) < limit (ms_month r))
      then r :: head_from limit (seen ++ [r]) t'
      else head_from limit (seen ++ [r]) t'
  end.

(** [t.groupby('month').head(n)]: the first [n] rows of each group or,
    for negative [n], all but the last [-n] rows of each group. *)
Definition groupby_month_head (n : Z) (t : list score_row) : list score_row :=
  head_from (λ m, if 0 <=? n then n else Z.of_nat (group_size t m) + n) [] t.

(** The two ranking statements with the literal 3 and the sort direction
    read as parameters. *)
Definition rank_top (k : Z) (d : direction) (scores : list score_row)
  : list score_row :=
  groupby_month_head k (merge_sort (rank_le d) scores).

(** [b] comes before [a] in the ranking of its month: it has the better
    score (the higher one for the best ranking, the lower one for the worst)
    or the same score and the smaller employee id. *)
Definition ranks_before (d : direction) (b a : score_row) : Prop :=
  ms_month b = ms_month a ∧
  ((score_le d (ms_score b) (ms_score a) ∧ ms_score b ≠ ms_score a) ∨
   (ms_score b = ms_score a ∧ String.le (ms_employee b) (ms_employee a) ∧
    ms_employee b ≠ ms_employee a)).

Global Instance ranks_before_dec d b a : Decision (ranks_before d b a).
Proof. unfold ranks_before. apply _. Defined.

Definition top_3_pos (scores : list score_row) : list score_row :=
  rank_top 3 best scores.

Definition top_3_neg (scores : list score_row) : list score_row :=
  rank_top 3 worst scores.

(** ** Flight risk (cell 5) *)

(** [df[df['sentiment_label'] == 'Negative'][['employee','date']]
      .sort_values(['employee','date'])] *)
Definition df_neg (df : list row) : list (string * option Z) :=
  merge_sort neg_le
    ((λ r, (employee r, date r)) <$>
       filter (λ r, sentiment_label r = Negative) df).

(** [groupby('employee')] on a two-column frame: one group per distinct
    key, keys ascending, each group keeping the frame's row order; the
    loop reads the group's [date] column as a list. *)
Definition group_dates (t : list (string * option Z)) (emp : string)
  : list (option Z) :=
  snd <$> filter (λ p, p.1 = emp) t.

Definition groupby_employee (t : list (string * option Z))
  : list (string * list (option Z)) :=
  (λ emp, (emp, group_dates t emp)) <$>
    merge_sort String.le (remove_dups (fst <$> t)).

(** [dates[lo:hi]] *)
Definition slice {A} (lo hi : nat) (l : list A) : list A :=
  take (hi - lo) (drop lo l).

(** One summand of line 222:
    [(dates[i] - d).days <= 30 and (dates[i] - d).days >= 0];
    a comparison with NaN is false. *)
Definition in_window (window_days : Z) (di d : option Z) : bool :=
  match timedelta_days di d with
  | Some n => (n <=? window_days) && (n >=? 0)
  | None => false
  end.

(** [sum(... for d in dates[max(0,i-lookback):i+1])]; on [nat] the
    truncated subtraction [i - lookback] is [max(0, i - lookback)]. *)
Definition window_count (window_days : Z) (lookback : nat)
    (dates : list (option Z)) (i : nat) : nat :=
  match dates !! i with
  | Some di =>
      length (filter (λ d, in_window window_days di d = true)
                (slice (i - lookback) (i + 1) dates))
  | None => 0%nat
  end.

(** The inner [for i in range(len(dates))] with its [break]: true when
    the employee is appended to [flight_risk]. *)
Definition scan (window_days threshold : Z) (lookback : nat)
    (dates : list (option Z)) : bool :=
  existsb (λ i, threshold <=? Z.of_nat (window_count window_days lookback dates i))
    (seq 0 (length dates)).

(** The cell with the literals 30 and 4 read as parameters. *)
Definition detect (window_days threshold : Z) (df : list row) : gset string :=
  list_to_set
    (fst <$> filter (λ g, scan window_days threshold 10 g.2 = true)
       (groupby_employee (df_neg df))).

(** The cell as written: 30 days, 4 messages, 10 records of lookback,
    and [list(set(flight_risk))] read as a set. *)
Definition flight_risk (df : list row) : gset string := detect 30 4 df.

(** ** Feature table (cell 6) *)

(** [df['body'].str.len()]: the number of characters of the body (one
    [ascii] per character), NaN where the body is missing. *)
Definition msg_length (r : row) : option Z :=
  (λ b, Z.of_nat (String.length b)) <$> body r.

(** The [count] aggregation: the number of entries that are not NaN. *)
Definition nan_count {A} (xs : list (option A)) : nat :=
  length (filter is_Some xs).

(** The integer nearest to [a / b], ties to the even one ([0 <= a],
    [0 < b]). *)
Definition round_half_even (a b : Z) : Z :=
  let q := a / b in
  let r := a mod b in
  if 2 * r <? b then q
  else if b <? 2 * r then q + 1
  else if Z.even q then q else q + 1.

(** Division of doubles, [num / den], for integers [0 <= num] and
    [0 < den] that doubles hold exactly (below 2^53): the double nearest to
    the quotient, given as the rational it denotes. With [e] the exponent
    of the quotient ([2^e <= num / den < 2^(e+1)]) the result is a 53-bit
    integer times [2^(e-52)]; such quotients are in the normal range. *)
Definition binary64_div (num den : Z) : Q :=
  if num =? 0 then 0%Q
  else
    let e0 := Z.log2 num - Z.log2 den in
    let e := if num * 2 ^ Z.max 0 (- e0) <? den * 2 ^ Z.max 0 e0
             then e0 - 1 else e0 in
    let shift := 52 - e in
    let m := round_half_even (num * 2 ^ Z.max 0 shift)
                             (den * 2 ^ Z.max 0 (- shift)) in
    Qred (Qmake (m * 2 ^ Z.max 0 (- shift)) (Z.to_pos (2 ^ Z.max 0 shift))).

(** The [mean] aggregation ([skipna] is on): NaN entries add nothing to
    the sum and are not counted; with nothing counted the mean is NaN,
    here [None]; otherwise it is the sum divided by the count, in
    doubles. *)
Definition nan_mean (xs : list (option Z)) : option Q :=
  if decide (nan_count xs = 0%nat) then None
  else Some (binary64_div (sum_Z (default 0 <$> xs))
                          (Z.of_nat (nan_count xs))).

(** A row of [features] after the renaming of its columns. *)
Record feature_row := FeatureRow {
  ft_employee : string;
  ft_month : Z;
  ft_score : Z;
  avg_length : option Q;
  msg_count : nat
}.

Inductive error := AttributeError.

(** The [body] column of a frame that has rows but not one body is read
    as a column of floats, and [.str] on it raises. *)
Definition no_text (df : list row) : Prop :=
  df ≠ [] ∧ Forall (λ r, body r = None) df.

Global Instance no_text_dec df : Decision (no_text df).
Proof.
  unfold no_text. apply and_dec; [|apply _].
  destruct df; [right; by intros ? | left; done].
Defined.

(** [df['msg_length'] = df['body'].str.len()] followed by
    [df.groupby(['employee','month']).agg({'score': 'sum',
      'msg_length': 'mean', 'body': 'count'}).reset_index()] *)
Definition features (df : list row) : error + list feature_row :=
  if decide (no_text df) then inl AttributeError
  else inr ((λ k, let g := group_rows df k in
                  FeatureRow k.1 k.2 (sum_Z (score <$> g))
                    (nan_mean (msg_length <$> g)) (nan_count (body <$> g)))
              <$> group_keys df).

(** ** Notions of the design text *)

(** The mean length of a group when a missing body counts as a message of
    length 0 (the reading of the design text). *)
Definition mean_missing_as_zero (g : list row) : Qc :=
  Qcdiv (Qc_of_Z (sum_Z ((λ r, default 0 (msg_length r)) <$> g)))
        (Qc_of_Z (Z.of_nat (length g))).

(** The employee's Negative messages that have a parsed date, in frame
    order. *)
Definition neg_dates (df : list row) (emp : string) : list Z :=
  omap (λ r, if decide (sentiment_label r = Negative ∧ employee r = emp)
             then date r else None) df.

(** Some [n] of the messages [ts] lie within [w] whole days of one
    another. *)
Definition has_window (w : Z) (n : nat) (ts : list Z) : Prop :=
  ∃ s, s `sublist_of` ts ∧ length s = n ∧
       ∀ x y, x ∈ s → y ∈ s → days_between x y ≤ w.

(** [n] consecutive entries of [ts] span at most [w] whole days. *)
Definition dense_run (w : Z) (n : nat) (ts : list Z) : Prop :=
  ∃ i x y, ts !! i = Some y ∧ ts !! (i + n - 1)%nat = Some x ∧
           days_between x y ≤ w.

(** ** The two-pointer scan of the design text *)

(** Written from the design text, not from the notebook: "for each [hi]
    from 0 to n-1, advance [lo] while [t[hi] - t[lo] > window_days]".
    The inner loop gets [hi - lo] steps of fuel; [advance_lo_stops] shows
    that for a non-negative window it always leaves by its own test. *)
Fixpoint advance_lo (window_days : Z) (t : list Z) (hi fuel lo : nat) : nat :=
  match fuel with
  | O => lo
  | S fuel' =>
      if window_days <? days_between (t !!! hi) (t !!! lo)
      then advance_lo window_days t hi fuel' (S lo)
      else lo
  end.

(** "The window count is [hi - lo + 1].  The employee is flagged the first
    time any window count reaches [threshold]." *)
Fixpoint two_pointer_from (window_days threshold : Z) (t : list Z)
    (todo hi lo : nat) : bool :=
  match todo with
  | O => false
  | S todo' =>
      let lo' := advance_lo window_days t hi (hi - lo) lo in
      if threshold <=? Z.of_nat (hi - lo' + 1) then true
      else two_pointer_from window_days threshold t todo' (S hi) lo'
  end.

Definition two_pointer_scan (window_days threshold : Z) (t : list Z) : bool :=
  two_pointer_from window_days threshold t (length t) 0 0.

(** ** Sentiment labelling (cell 1) *)

(** A row of the file that is read, with its date already parsed. *)
Record message := Message {
  msg_from : string;
  msg_date : option Z;
  msg_body : option string
}.

(** The literal [0.05] as the double it denotes. Doubles compare as the
    rationals they stand for. *)
Definition compound_threshold : Q := 3602879701896397 # 72057594037927936.

(** [get_sentiment]; [compound] stands for
    [sia.polarity_scores(text)['compound']] of the analyzer. *)
Definition get_sentiment (compound : string → Q) (text : option string)
  : sentiment :=
  match text with
  | None => Neutral
  | Some t =>
      let score := compound t in
      if Qle_bool compound_threshold score then Positive
      else if Qle_bool score (- compound_threshold) then Negative
      else Neutral
  end.

(** [df['sentiment_label'] = df['body'].apply(get_sentiment)], with the
    [employee] column copied from [from]. *)
Definition label_frame (compound : string → Q) (raw : list message) : list row :=
  (λ m, Row (msg_from m) (msg_date m) (get_sentiment compound (msg_body m))
            (msg_body m)) <$> raw.

(** ** Exploratory tables (cell 2) *)

(** The characters below code point 256 that [str.split()] takes for
    white space. *)
Definition is_space (c : Ascii.ascii) : bool :=
  let n := Ascii.N_of_ascii c in
  ((9 <=? n) && (n <=? 13) || (28 <=? n) && (n <=? 32) ||
   (n =? 133) || (n =? 160))%N.

(** [x.split()]: the maximal runs of characters that are not white
    space. [cur] is the run being read, last character first. *)
Fixpoint split_go (cur s : list Ascii.ascii) : list (list Ascii.ascii) :=
  match s with
  | [] => match cur with [] => [] | _ => [reverse cur] end
  | c :: s' =>
      if is_space c
      then match cur with
           | [] => split_go [] s'
           | _ => reverse cur :: split_go [] s'
           end
      else split_go (c :: cur) s'
  end.

Definition split (x : string) : list string :=
  String.string_of_list_ascii <$> split_go [] (String.list_ascii_of_string x).

(** The [word_count] column:
    [df['body'].fillna("").apply(lambda x: len(x.split()))]. *)
Definition word_count (r : row) : nat :=
  length (split (default ""%string (body r))).

(** Labels as column names sort alphabetically:
    ['Negative' < 'Neutral' < 'Positive']. *)
Definition label_rank (l : sentiment) : Z :=
  match l with
  | Negative => 0
  | Neutral => 1
  | Positive => 2
  end.

Definition label_le (a b : sentiment) : Prop := label_rank a ≤ label_rank b.

Global Instance label_le_dec : RelDecision label_le.
Proof. intros a b. unfold label_le. apply _. Defined.

Definition month_label_rows (df : list row) (k : Z * sentiment) : list row :=
  filter (λ r, month r = Some k.1 ∧ sentiment_label r = k.2) df.

(** [df.groupby(['month', 'sentiment_label']).size()] *)
Definition month_label_size (df : list row) : list ((Z * sentiment) * nat) :=
  (λ k, (k, length (month_label_rows df k))) <$>
    merge_sort (lex_le Z.le label_le)
      (remove_dups (omap (λ r, m ← month r; Some (m, sentiment_label r)) df)).

Definition size_at (sizes : list ((Z * sentiment) * nat)) (k : Z * sentiment)
  : option nat :=
  (λ ip, ip.2.2) <$> list_find (λ p, p.1 = k) sizes.

(** [.unstack().fillna(0)]: one row per month, one column per label that
    occurs, and 0 where a month has no message of a label. *)
Definition sentiment_monthly (df : list row) : list (Z * list (sentiment * Z)) :=
  let sizes := month_label_size df in
  let index := merge_sort Z.le (remove_dups ((λ p, p.1.1) <$> sizes)) in
  let columns := merge_sort label_le (remove_dups ((λ p, p.1.2) <$> sizes)) in
  (λ m, (m, (λ l, (l, from_option Z.of_nat 0 (size_at sizes (m, l)))) <$> columns))
    <$> index.

(** ** Rows of several groups *)

(** The (employee, month) key of a row; none when the month is [NaT]. *)
Definition row_key (r : row) : option (string * Z) :=
  m ← month r; Some (employee r, m).

(** The row's key is one of [ks]; a row without a key is in no group. *)
Definition key_in {K} (key : row → option K) (ks : list K) (r : row) : Prop :=
  from_option (λ k, k ∈ ks) False (key r).

Global Instance key_in_dec {K} `{!EqDecision K} (key : row → option K) ks r :
  Decision (key_in key ks r).
Proof. unfold key_in. destruct (key r); simpl; apply _. Defined.

(** ** Frames moved in time *)

Definition shift_dates (c : Z) (df : list row) : list row :=
  (λ r, Row (employee r) ((λ t, t + c) <$> date r) (sentiment_label r) (body r))
    <$> df.

(** Timestamps for examples: midnight of day [n] after the epoch. *)
Definition day (n : Z) : Z := n * ns_per_day.

Definition neg (e : string) (n : Z) : row := Row e (Some (day n)) Negative (Some "x"%string).

Example civil_epoch : civil_from_days 0 = (1970, 1).
Proof. reflexivity. Qed.
Example civil_leap_day : civil_from_days 11016 = (2000, 2).
Proof. reflexivity. Qed.
Example civil_after_leap_day : civil_from_days 11017 = (2000, 3).
Proof. reflexivity. Qed.
Example civil_before_epoch : civil_from_days (-1) = (1969, 12).
Proof. reflexivity. Qed.
Example civil_2024_12_31 : civil_from_days 20088 = (2024, 12).
Proof. reflexivity. Qed.

Example alice_flagged :
  flight_risk [neg "alice" 1; neg "alice" 5; neg "alice" 10; neg "alice" 20; neg "alice" 31]
  = {[ "alice"%string ]}.
Proof. vm_compute. reflexivity. Qed.

(** * Properties *)

(** ** Orders used by [sort_values] *)

Global Instance date_le_refl : Reflexive date_le.
Proof. intros [x|]; simpl; [lia | done]. Qed.

Global Instance date_le_trans : Transitive date_le.
Proof. intros [x|] [y|] [z|]; simpl; try done; lia. Qed.

Global Instance date_le_total : Total date_le.
Proof. intros [x|] [y|]; simpl; auto; lia. Qed.

Global Instance date_le_antisym : AntiSymm (=) date_le.
Proof. intros [x|] [y|]; simpl; try done. intros. f_equal. lia. Qed.

Section lex_le.
Context {A B} (R1 : relation A) (R2 : relation B).

Global Instance lex_le_refl `{!Reflexive R1, !Reflexive R2} :
  Reflexive (lex_le R1 R2).
Proof. by intros p. Qed.

Global Instance lex_le_trans `{!Transitive R1, !Transitive R2} :
  Transitive (lex_le R1 R2).
Proof.
  intros p q r [Hpq Hpq'] [Hqr Hqr']. split; [by etrans|].
  intros Hrp. etrans; [apply Hpq' | apply Hqr']; by etrans.
Qed.

Global Instance lex_le_total `{!Total R1, !Total R2, !RelDecision R1} :
  Total (lex_le R1 R2).
Proof.
  intros p q. unfold lex_le.
  destruct (total R1 p.1 q.1) as [H|H], (total R2 p.2 q.2) as [H'|H']; auto.
  - destruct (decide (R1 q.1 p.1)); [right | left]; naive_solver.
  - destruct (decide (R1 p.1 q.1)); [left | right]; naive_solver.
Qed.

Global Instance lex_le_antisym `{!AntiSymm (=) R1, !AntiSymm (=) R2} :
  AntiSymm (=) (lex_le R1 R2).
Proof.
  intros [a1 b1] [a2 b2] [H1 H1'] [H2 H2']; simpl in *.
  f_equal; [by apply (anti_symm R1) | apply (anti_symm R2); auto].
Qed.
End lex_le.

Global Instance neg_le_trans : Transitive neg_le.
Proof. unfold neg_le. apply _. Qed.
Global Instance neg_le_total : Total neg_le.
Proof. unfold neg_le. apply _. Qed.
Global Instance neg_le_antisym : AntiSymm (=) neg_le.
Proof. unfold neg_le. apply _. Qed.

Global Instance key_le_trans : Transitive key_le.
Proof. unfold key_le. apply _. Qed.
Global Instance key_le_total : Total key_le.
Proof. unfold key_le. apply _. Qed.
Global Instance key_le_antisym : AntiSymm (=) key_le.
Proof. unfold key_le. apply _. Qed.

Global Instance score_le_refl d : Reflexive (score_le d).
Proof. intros a. destruct d; simpl; lia. Qed.
Global Instance score_le_trans d : Transitive (score_le d).
Proof. intros a b c. destruct d; simpl; lia. Qed.
Global Instance score_le_total d : Total (score_le d).
Proof. intros a b. destruct d; simpl; lia. Qed.
Global Instance score_le_antisym d : AntiSymm (=) (score_le d).
Proof. intros a b. destruct d; simpl; lia. Qed.

Global Instance rank_le_refl d : Reflexive (rank_le d).
Proof. intros a. unfold rank_le. apply reflexivity. Qed.
Global Instance rank_le_trans d : Transitive (rank_le d).
Proof. intros a b c. unfold rank_le. apply transitivity. Qed.
Global Instance rank_le_total d : Total (rank_le d).
Proof. intros a b. unfold rank_le. apply total, _. Qed.
Global Instance rank_le_antisym d : AntiSymm (=) (rank_le d).
Proof.
  intros [e1 m1 s1] [e2 m2 s2] H1 H2.
  pose proof (anti_symm (lex_le Z.le (lex_le (score_le d) String.le)) _ _ H1 H2).
  unfold rank_key in *. by simplify_eq/=.
Qed.

(** ** Generic facts on lists *)

Section list_facts.
Context {A : Type}.
Implicit Types l : list A.

Lemma StronglySorted_lookup_le (R : relation A) `{!Reflexive R} l i j x y :
  StronglySorted R l → (i ≤ j)%nat → l !! i = Some x → l !! j = Some y → R x y.
Proof.
  intros Hl. revert i j. induction Hl as [|a l Hl IH Ha]; intros i j Hij Hi Hj.
  { by rewrite lookup_nil in Hi. }
  destruct i as [|i], j as [|j]; simplify_eq/=; try lia.
  - done.
  - by eapply Forall_lookup_1.
  - eapply IH; [|done..]. lia.
Qed.

Lemma lookup_slice l lo hi k :
  (k < hi - lo)%nat → slice lo hi l !! k = l !! (lo + k)%nat.
Proof. intros. unfold slice. by rewrite lookup_take_lt, lookup_drop. Qed.

Lemma length_slice l lo hi :
  (hi ≤ length l)%nat → length (slice lo hi l) = (hi - lo)%nat.
Proof. intros. unfold slice. rewrite length_take, length_drop. lia. Qed.

Lemma filter_all (P : A → Prop) `{!∀ x, Decision (P x)} l :
  Forall P l → filter P l = l.
Proof.
  induction 1; [done|]. rewrite filter_cons_True by done. by f_equal.
Qed.

(** When a predicate, once true, stays true further right in the list,
    the number of hits is at least [n] exactly when the [n]-th element
    from the right is a hit. *)
Lemma length_filter_upward (P : A → Prop) `{!∀ x, Decision (P x)} l n :
  (∀ j k x y, (j ≤ k)%nat → l !! j = Some x → l !! k = Some y → P x → P y) →
  (1 ≤ n)%nat →
  (n ≤ length (filter P l))%nat ↔
  (n ≤ length l)%nat ∧ ∃ x, l !! (length l - n)%nat = Some x ∧ P x.
Proof.
  intros Hup Hn. induction l as [|a l IH].
  { simpl. split; [lia | intros [? _]; lia]. }
  rewrite filter_cons. destruct (decide (P a)) as [Ha|Ha].
  - assert (Forall P l) as Hall.
    { apply Forall_lookup_2. intros k y Hk.
      apply (Hup 0 (S k) a y)%nat; [lia|done..]. }
    rewrite (filter_all P l Hall).
    simpl. split; [|by intros [? _]]. intros Hle. split; [done|].
    destruct (lookup_lt_is_Some_2 (a :: l) (S (length l) - n)) as [x Hx];
      [simpl; lia|].
    exists x. split; [done|].
    apply (Hup 0 (S (length l) - n) a x)%nat; [lia|done..].
  - rewrite IH; last first.
    { intros j k x y Hjk Hj Hk. apply (Hup (S j) (S k)); [lia|done..]. }
    simpl. split.
    + intros (Hle & x & Hx & HP). split; [lia|]. exists x. split; [|done].
      by replace (S (length l) - n)%nat with (S (length l - n)) by lia.
    + intros (Hle & x & Hx & HP).
      destruct (decide (n = S (length l))) as [->|Hne].
      { rewrite Nat.sub_diag in Hx. by simplify_eq/=. }
      split; [lia|]. exists x. split; [|done].
      by replace (S (length l) - n)%nat with (S (length l - n)) in Hx by lia.
Qed.
End list_facts.

(** ** The scan on one employee's dates *)

Lemma days_between_mono x x' y y' :
  x ≤ x' → y' ≤ y → days_between x y ≤ days_between x' y'.
Proof. intros. unfold days_between. apply Z.div_le_mono; [done | lia]. Qed.

Lemma days_between_nonneg x y : y ≤ x → 0 ≤ days_between x y.
Proof. intros. unfold days_between. apply Z.div_pos; [lia | done]. Qed.

Lemma days_between_diag x : days_between x x = 0.
Proof. unfold days_between. by rewrite Z.sub_diag. Qed.

Lemma in_window_Some W x d :
  in_window W (Some x) d = true ↔
  ∃ y, d = Some y ∧ days_between x y ≤ W ∧ 0 ≤ days_between x y.
Proof.
  unfold in_window. destruct d as [y|]; simpl.
  - rewrite andb_true_iff, Z.leb_le, Z.geb_le. naive_solver.
  - naive_solver.
Qed.

Lemma window_count_ge W L dates i n :
  StronglySorted date_le dates → (1 ≤ n)%nat → (n ≤ L + 1 ∨ i ≤ L)%nat →
  (n ≤ window_count W L dates i)%nat ↔
  ∃ x y, dates !! i = Some (Some x) ∧ (n ≤ i + 1)%nat ∧
         dates !! (i + 1 - n)%nat = Some (Some y) ∧ days_between x y ≤ W.
Proof.
  intros Hsort Hn HL. unfold window_count.
  destruct (dates !! i) as [[x|]|] eqn:Hi.
  - assert (i < length dates)%nat as Hlen by by eapply lookup_lt_Some.
    rewrite length_filter_upward; [| |done].
    + rewrite length_slice by lia. split.
      * intros (Hle & d & Hd & Hin). rewrite lookup_slice in Hd by lia.
        replace (i - L + (i + 1 - (i - L) - n))%nat with (i + 1 - n)%nat in Hd by lia.
        apply in_window_Some in Hin as (y & -> & ? & ?).
        exists x, y. repeat split; [lia | done..].
      * intros (x' & y & [= <-] & ? & Hy & Hd).
        split; [lia|]. exists (Some y). rewrite lookup_slice by lia.
        replace (i - L + (i + 1 - (i - L) - n))%nat with (i + 1 - n)%nat by lia.
        split; [done|]. apply in_window_Some. exists y. repeat split; [done|].
        apply days_between_nonneg.
        apply (StronglySorted_lookup_le date_le dates (i + 1 - n) i (Some y) (Some x));
          [done | lia | done..].
    + intros j k a b Hjk Hj Hk Ha.
      assert (k < i + 1 - (i - L))%nat.
      { apply lookup_lt_Some in Hk. by rewrite length_slice in Hk by lia. }
      rewrite lookup_slice in Hj, Hk by lia.
      apply in_window_Some in Ha as (ya & -> & ? & ?).
      assert (date_le b (Some x)) as Hb.
      { apply (StronglySorted_lookup_le date_le dates (i - L + k) i);
          [done | lia | done..]. }
      assert (date_le (Some ya) b) as Hab.
      { apply (StronglySorted_lookup_le date_le dates (i - L + j) (i - L + k));
          [done | lia | done..]. }
      destruct b as [yb|]; simpl in *; [|done].
      apply in_window_Some. exists yb. split; [done|]. split.
      * etrans; [|done]. apply days_between_mono; lia.
      * by apply days_between_nonneg.
  - assert (∀ l : list (option Z),
              filter (λ d, in_window W None d = true) l = []) as ->.
    { intros l. induction l as [|d l IH]; [done|].
      by rewrite filter_cons_False. }
    simpl. split; [lia | naive_solver].
  - split; [lia | naive_solver].
Qed.

(** In a sorted group the parsed dates come first, so an index into the
    group is an index into its list of timestamps. *)
Lemma sorted_dates_lookup dates i x :
  StronglySorted date_le dates →
  dates !! i = Some (Some x) ↔ omap id dates !! i = Some x.
Proof.
  intros Hsort. revert i. induction Hsort as [|a l Hl IH Ha]; intros i.
  { by rewrite !lookup_nil. }
  destruct a as [z|].
  - change (omap id (Some z :: l)) with (z :: omap id l).
    destruct i as [|i]; simpl; [naive_solver | apply IH].
  - assert (omap id (None :: l) = []) as ->.
    { change (omap id (None :: l)) with (omap id l).
      clear IH Hl. induction Ha as [|[b|] l Hb _ IHl]; simpl in *; done. }
    rewrite lookup_nil. split; [|done]. intros Hi.
    destruct i as [|i]; simpl in *; [done|].
    by apply (Forall_lookup_1 _ _ _ _ Ha) in Hi.
Qed.

Lemma scan_sorted W T L dates :
  StronglySorted date_le dates → 1 ≤ T →
  (Z.to_nat T ≤ L + 1 ∨ length dates ≤ L + 1)%nat →
  scan W T L dates = true ↔ dense_run W (Z.to_nat T) (omap id dates).
Proof.
  intros Hsort HT HL. unfold scan, dense_run. rewrite existsb_exists. split.
  - intros (i & Hi & Hle). apply in_seq in Hi. apply Z.leb_le in Hle.
    assert (Z.to_nat T ≤ window_count W L dates i)%nat as Hc by lia.
    apply window_count_ge in Hc as (x & y & Hx & Hn & Hy & Hd); [|done|lia..].
    exists (i + 1 - Z.to_nat T)%nat, x, y.
    rewrite <-!sorted_dates_lookup by done.
    by replace (i + 1 - Z.to_nat T + Z.to_nat T - 1)%nat with i by lia.
  - intros (i & x & y & Hy & Hx & Hd).
    rewrite <-!sorted_dates_lookup in Hx, Hy by done.
    exists (i + Z.to_nat T - 1)%nat. split.
    { apply in_seq. apply lookup_lt_Some in Hx. lia. }
    apply Z.leb_le.
    enough (Z.to_nat T ≤ window_count W L dates (i + Z.to_nat T - 1))%nat by lia.
    apply lookup_lt_Some in Hx as Hlen.
    apply window_count_ge; [done|lia..|].
    exists x, y. repeat split; [done|lia| |done].
    by replace (i + Z.to_nat T - 1 + 1 - Z.to_nat T)%nat with i by lia.
Qed.

(** ** Runs of consecutive entries against arbitrary choices of messages *)

Lemma sublist_sorted_lookup_le (s ts : list Z) k a :
  s `sublist_of` ts → StronglySorted Z.le ts → s !! k = Some a →
  ∃ b, ts !! k = Some b ∧ b ≤ a.
Proof.
  intros Hsub. revert k. induction Hsub as [|x s ts Hsub IH|x s ts Hsub IH];
    intros k Hsort Hk.
  - by rewrite lookup_nil in Hk.
  - apply StronglySorted_inv in Hsort as [Hsort _].
    destruct k as [|k]; simpl in *; [exists a; split; [done | lia]|]. by apply IH.
  - apply StronglySorted_inv in Hsort as [Hsort Hx].
    destruct (IH k Hsort Hk) as (b & Hb & Hba).
    destruct k as [|k]; simpl.
    + exists x. split; [done|]. etrans; [|done]. by eapply Forall_lookup_1.
    + destruct (lookup_lt_is_Some_2 ts k) as [c Hc].
      { apply lookup_lt_Some in Hb. lia. }
      exists c. split; [done|]. etrans; [|done].
      apply (StronglySorted_lookup_le Z.le ts k (S k)); [done | lia | done..].
Qed.

Lemma has_window_dense_run W n ts :
  StronglySorted Z.le ts → (1 ≤ n)%nat →
  has_window W n ts ↔ dense_run W n ts.
Proof.
  intros Hsort Hn. split.
  - intros (s & Hsub & <- & Hpair). revert Hsort Hn Hpair.
    induction Hsub as [|x s ts Hsub IH|x s ts Hsub IH]; intros Hsort Hn Hpair.
    + simpl in Hn. lia.
    + clear IH. apply StronglySorted_inv in Hsort as [Hsort Hx].
      exists 0%nat. destruct (decide (s = [])) as [->|Hne].
      * exists x, x. repeat split. apply Hpair; by left.
      * destruct (lookup_lt_is_Some_2 s (length s - 1)) as [a Ha].
        { destruct s; simpl in *; [done | lia]. }
        destruct (sublist_sorted_lookup_le _ _ _ _ Hsub Hsort Ha) as (b & Hb & Hba).
        exists b, x. split; [done|]. split.
        { simpl. by replace (length s - 0)%nat with (S (length s - 1)) by
            (destruct s; simpl in *; [done | lia]). }
        etrans; [apply (days_between_mono b a x x); [done | lia]|].
        apply Hpair; [right; by eapply list_elem_of_lookup_2 | by left].
    + apply StronglySorted_inv in Hsort as [Hsort Hx].
      destruct (IH Hsort Hn Hpair) as (i & a & b & Hb & Ha & Hd).
      exists (S i), a, b. repeat split; [done| |done].
      by replace (S i + length s - 1)%nat with (S (i + length s - 1)) by lia.
  - intros (i & x & y & Hy & Hx & Hd).
    apply lookup_lt_Some in Hx as Hlen.
    exists (take n (drop i ts)). split; [|split].
    + etrans; [apply sublist_take | apply sublist_drop].
    + rewrite length_take, length_drop. lia.
    + assert (∀ z, z ∈ take n (drop i ts) → y ≤ z ≤ x) as Hbound.
      { intros z [k Hk]%list_elem_of_lookup_1.
        apply lookup_lt_Some in Hk as Hkn. rewrite length_take in Hkn.
        rewrite lookup_take_lt, lookup_drop in Hk by lia. split.
        - apply (StronglySorted_lookup_le Z.le ts i (i + k)); [done | lia | done..].
        - apply (StronglySorted_lookup_le Z.le ts (i + k) (i + n - 1));
            [done | lia | done..]. }
      intros a b Ha%Hbound Hb%Hbound. etrans; [|done].
      apply days_between_mono; lia.
Qed.

Lemma has_window_Permutation W n ts ts' :
  ts ≡ₚ ts' → has_window W n ts → has_window W n ts'.
Proof.
  intros Hperm (s & Hsub & Hlen & Hpair).
  destruct (sublist_Permutation _ _ _ Hsub Hperm) as (s' & Hs & Hsub').
  exists s'. split; [done|]. split; [by rewrite <-Hs|].
  intros x y. rewrite <-Hs. apply Hpair.
Qed.

Lemma has_window_length W n ts : has_window W n ts → (n ≤ length ts)%nat.
Proof. intros (s & Hsub & <- & _). by apply sublist_length. Qed.

(** ** From the frame to one employee's sorted dates *)

Lemma df_neg_sorted df : StronglySorted neg_le (df_neg df).
Proof. apply StronglySorted_merge_sort; apply _. Qed.

Lemma group_dates_sorted t emp :
  StronglySorted neg_le t → StronglySorted date_le (group_dates t emp).
Proof.
  unfold group_dates. induction 1 as [|p t Ht IH Hp]; [constructor|].
  rewrite filter_cons. case_decide as Hpe; [|done].
  rewrite fmap_cons. constructor; [done|].
  apply Forall_fmap, Forall_lookup_2. intros k q Hq.
  apply list_elem_of_lookup_2, list_elem_of_filter in Hq as [Hqe Hq].
  apply list_elem_of_lookup_1 in Hq as [j Hj].
  destruct (Forall_lookup_1 _ _ _ _ Hp Hj) as [_ Hd].
  simpl. apply Hd. by rewrite Hqe, Hpe.
Qed.

Lemma timestamps_sorted dates :
  StronglySorted date_le dates → StronglySorted Z.le (omap id dates).
Proof.
  induction 1 as [|a l Hl IH Ha]; [constructor|].
  destruct a as [x|]; [|done].
  change (omap id (Some x :: l)) with (x :: omap id l). constructor; [done|].
  apply Forall_lookup_2. intros k y Hk.
  apply list_elem_of_lookup_2, list_elem_of_omap in Hk as (d & Hd & Hy).
  apply list_elem_of_lookup_1 in Hd as [j Hj].
  apply (Forall_lookup_1 _ _ _ _ Ha) in Hj. by destruct d; simplify_eq/=.
Qed.

Lemma group_dates_unsorted df emp :
  omap id (group_dates
    ((λ r, (employee r, date r)) <$> filter (λ r, sentiment_label r = Negative) df)
    emp) = neg_dates df emp.
Proof.
  unfold group_dates, neg_dates. induction df as [|r df IH]; [done|].
  rewrite filter_cons. cbn [omap list_omap].
  destruct (decide (sentiment_label r = Negative)) as [Hneg|Hneg].
  - rewrite fmap_cons, filter_cons. simpl.
    destruct (decide (employee r = emp)) as [He|He].
    + rewrite decide_True by done. rewrite fmap_cons. cbn [omap list_omap].
      simpl. fold (@omap list _ _ _ (@id (option Z))). by rewrite IH.
    + rewrite decide_False by naive_solver. by rewrite IH.
  - rewrite decide_False by naive_solver. by rewrite IH.
Qed.

Lemma group_dates_neg_dates df emp :
  omap id (group_dates (df_neg df) emp) ≡ₚ neg_dates df emp.
Proof.
  rewrite <-group_dates_unsorted. unfold group_dates, df_neg.
  by rewrite merge_sort_Permutation.
Qed.

Lemma scan_nil W T L : scan W T L [] = false.
Proof. done. Qed.

Lemma elem_of_detect W T df emp :
  emp ∈ detect W T df ↔ scan W T 10 (group_dates (df_neg df) emp) = true.
Proof.
  unfold detect, groupby_employee.
  rewrite elem_of_list_to_set, list_elem_of_fmap. split.
  - intros ([e ds] & -> & [Hscan Hin]%list_elem_of_filter).
    apply list_elem_of_fmap in Hin as (e' & [= -> ->] & _). done.
  - intros Hscan. exists (emp, group_dates (df_neg df) emp). split; [done|].
    apply list_elem_of_filter. split; [done|].
    apply list_elem_of_fmap. exists emp. split; [done|].
    rewrite merge_sort_Permutation, elem_of_remove_dups.
    destruct (group_dates (df_neg df) emp) as [|d ds] eqn:Hg.
    { by rewrite scan_nil in Hscan. }
    assert (d ∈ group_dates (df_neg df) emp) as Hd by (rewrite Hg; left).
    apply list_elem_of_fmap in Hd as ([e' d'] & -> & [He Hin]%list_elem_of_filter).
    simpl in He. subst e'. apply list_elem_of_fmap. by exists (emp, d').
Qed.

(** The cell's decision for one employee, for any window and any
    threshold the lookback of 10 records can hold. *)
Lemma detect_has_window W T df emp :
  1 ≤ T ≤ 11 →
  emp ∈ detect W T df ↔ has_window W (Z.to_nat T) (neg_dates df emp).
Proof.
  intros HT. rewrite elem_of_detect.
  pose proof (group_dates_sorted _ emp (df_neg_sorted df)) as Hsort.
  rewrite scan_sorted by (done || lia).
  rewrite <-has_window_dense_run by (auto using timestamps_sorted || lia).
  split; apply has_window_Permutation; [|symmetry]; apply group_dates_neg_dates.
Qed.

(** ** The two-pointer scan *)

Section two_pointer.
Variables (W : Z) (ts : list Z).
Hypothesis W_nonneg : 0 ≤ W.
Hypothesis ts_sorted : StronglySorted Z.le ts.

Lemma sorted_total_le i j :
  (i ≤ j < length ts)%nat → ts !!! i ≤ ts !!! j.
Proof using ts_sorted.
  intros. apply (StronglySorted_lookup_le Z.le ts i j); [done | lia | ..];
    apply list_lookup_lookup_total_lt; lia.
Qed.

(** The inner loop stops at the least index whose day distance to
    [t[hi]] is within the window; the fuel never runs out first. *)
Lemma advance_lo_stops hi fuel lo :
  (hi < length ts)%nat → (lo ≤ hi)%nat → fuel = (hi - lo)%nat →
  (∀ j, (j < lo)%nat → W < days_between (ts !!! hi) (ts !!! j)) →
  let lo' := advance_lo W ts hi fuel lo in
  (lo ≤ lo' ≤ hi)%nat ∧ days_between (ts !!! hi) (ts !!! lo') ≤ W ∧
  ∀ j, (j < lo')%nat → W < days_between (ts !!! hi) (ts !!! j).
Proof using W_nonneg.
  intros Hhi. revert lo. induction fuel as [|fuel IH]; intros lo Hlo Hfuel Hinv.
  - simpl. assert (lo = hi) as -> by lia.
    rewrite days_between_diag. auto with lia.
  - simpl. destruct (Z.ltb_spec W (days_between (ts !!! hi) (ts !!! lo))) as [Hgt|Hle].
    + destruct (IH (S lo)) as (? & ? & ?); [lia..| |auto with lia].
      intros j Hj. destruct (decide (j = lo)) as [->|]; [done|].
      apply Hinv. lia.
    + auto with lia.
Qed.

Lemma two_pointer_from_run T todo hi lo :
  (1 ≤ T)%nat → (hi + todo = length ts)%nat → (lo ≤ hi)%nat →
  (∀ j i, (j < lo)%nat → (hi ≤ i < length ts)%nat →
          W < days_between (ts !!! i) (ts !!! j)) →
  two_pointer_from W (Z.of_nat T) ts todo hi lo = true ↔
  ∃ i, (hi ≤ i < length ts)%nat ∧ (T ≤ i + 1)%nat ∧
       days_between (ts !!! i) (ts !!! (i + 1 - T)%nat) ≤ W.
Proof using W_nonneg ts_sorted.
  intros HT. revert hi lo.
  induction todo as [|todo IH]; intros hi lo Hlen Hlo Hinv.
  { simpl. split; [done|]. intros (i & ? & _). lia. }
  cbn [two_pointer_from].
  destruct (advance_lo_stops hi (hi - lo) lo) as ((Hlo1 & Hlo2) & Hin & Hout);
    [lia | done | done | intros; apply Hinv; lia |].
  set (lo' := advance_lo W ts hi (hi - lo) lo) in *.
  destruct (Z.leb_spec (Z.of_nat T) (Z.of_nat (hi - lo' + 1))) as [Hreach|Hshort].
  - split; [intros _|done]. exists hi. repeat split; [lia..|].
    etrans; [|exact Hin]. apply days_between_mono; [done|].
    apply sorted_total_le. lia.
  - rewrite IH; [| lia | lia |]; last first.
    { intros j i Hj Hi. eapply Z.lt_le_trans; [by apply Hout|].
      apply days_between_mono; [|done]. apply sorted_total_le. lia. }
    split; intros (i & Hi & HTi & Hd); exists i; [auto with lia|].
    repeat split; [|lia|done..].
    destruct (decide (i = hi)) as [->|]; [|lia].
    specialize (Hout (hi + 1 - T)%nat). lia.
Qed.

Lemma dense_run_total T :
  (1 ≤ T)%nat →
  dense_run W T ts ↔
  ∃ i, (i < length ts)%nat ∧ (T ≤ i + 1)%nat ∧
       days_between (ts !!! i) (ts !!! (i + 1 - T)%nat) ≤ W.
Proof.
  intros HT. split.
  - intros (i & x & y & Hy & Hx & Hd). exists (i + T - 1)%nat.
    apply lookup_lt_Some in Hx as Hlen. repeat split; [lia..|].
    replace (i + T - 1 + 1 - T)%nat with i by lia.
    by rewrite (list_lookup_total_correct _ _ _ Hx),
      (list_lookup_total_correct _ _ _ Hy).
  - intros (i & Hi & HTi & Hd).
    exists (i + 1 - T)%nat, (ts !!! i), (ts !!! (i + 1 - T)%nat).
    repeat split; [| |done].
    + apply list_lookup_lookup_total_lt. lia.
    + replace (i + 1 - T + T - 1)%nat with i by lia.
      by apply list_lookup_lookup_total_lt.
Qed.

Lemma two_pointer_scan_run T :
  1 ≤ T → two_pointer_scan W T ts = true ↔ dense_run W (Z.to_nat T) ts.
Proof using W_nonneg ts_sorted.
  intros HT. unfold two_pointer_scan.
  rewrite <-(Z2Nat.id T) at 1 by lia.
  rewrite two_pointer_from_run, dense_run_total by lia.
  split; intros (i & ? & ?); exists i; auto with lia.
Qed.
End two_pointer.

Lemma fmap_Some_sorted ts :
  StronglySorted Z.le ts → StronglySorted date_le (Some <$> ts).
Proof. apply StronglySorted_fmap. by intros x y. Qed.

Lemma omap_id_fmap_Some (ts : list Z) : omap id (Some <$> ts) = ts.
Proof.
  induction ts as [|x ts IH]; [done|].
  rewrite fmap_cons. change (omap id (Some x :: (Some <$> ts)))
    with (x :: omap id (Some <$> ts)). by rewrite IH.
Qed.

Lemma neg_dates_length df emp :
  (length (neg_dates df emp) ≤
   length (filter (λ r, sentiment_label r = Negative ∧ employee r = emp) df))%nat.
Proof.
  unfold neg_dates. induction df as [|r df IH]; [done|].
  rewrite filter_cons. cbn [omap list_omap].
  destruct (decide (sentiment_label r = Negative ∧ employee r = emp)).
  - destruct (date r); simpl in *; lia.
  - done.
Qed.

Lemma neg_dates_parsed df emp :
  neg_dates (filter (λ r, is_Some (date r)) df) emp = neg_dates df emp.
Proof.
  unfold neg_dates. induction df as [|r df IH]; [done|].
  rewrite filter_cons. destruct (date r) as [d|] eqn:Hd.
  - rewrite decide_True by done. cbn [omap list_omap]. by rewrite IH.
  - rewrite decide_False by (by intros [? [=]]). cbn [omap list_omap].
    rewrite Hd. by destruct (decide _).
Qed.

(** ** Flight-risk detection *)

(** C1. [flight_risk] (window 30, threshold 4) flags an employee exactly
    when four of the employee's Negative messages with a parsed date lie
    within 30 whole days of one another; an employee with fewer than four
    Negative messages in all is not flagged. *)
Theorem flight_risk_correct df emp :
  (emp ∈ flight_risk df ↔ has_window 30 4 (neg_dates df emp)) ∧
  ((length (filter (λ r, sentiment_label r = Negative ∧ employee r = emp) df) < 4)%nat →
   emp ∉ flight_risk df).
Proof.
  assert (emp ∈ flight_risk df ↔ has_window 30 4 (neg_dates df emp)) as Hiff.
  { unfold flight_risk. by rewrite detect_has_window. }
  split; [done|]. intros Hfew Hin%Hiff%has_window_length.
  pose proof (neg_dates_length df emp). lia.
Qed.

Example bob_not_flagged :
  flight_risk [neg "bob" 1; neg "bob" 40; neg "bob" 80] = ∅.
Proof. vm_compute. reflexivity. Qed.

(** C4. On every sorted sequence of timestamps the notebook's scan, which
    looks back over at most 10 earlier records, decides as the two-pointer
    sliding-window scan does, and as the same scan with an unbounded
    lookback does (window 30, threshold 4). *)
Theorem bounded_lookback_refines_two_pointer ts :
  StronglySorted Z.le ts →
  scan 30 4 10 (Some <$> ts) = two_pointer_scan 30 4 ts ∧
  scan 30 4 10 (Some <$> ts) = scan 30 4 (length ts) (Some <$> ts).
Proof.
  intros Hsort. pose proof (fmap_Some_sorted ts Hsort) as Hsort'.
  split; apply eq_true_iff_eq.
  - rewrite scan_sorted, two_pointer_scan_run, omap_id_fmap_Some by (done || lia).
    done.
  - rewrite !scan_sorted by (done || rewrite ?length_fmap; lia). done.
Qed.

Lemma bounded_lookback_refines_two_pointer_witness :
  StronglySorted Z.le [day 1; day 5; day 10; day 20; day 31] ∧
  scan 30 4 10 (Some <$> [day 1; day 5; day 10; day 20; day 31]) = true ∧
  two_pointer_scan 30 4 [day 1; day 5; day 10; day 20; day 31] = true.
Proof.
  assert (StronglySorted Z.le [day 1; day 5; day 10; day 20; day 31]) as Hs.
  { repeat constructor; vm_compute; congruence. }
  split; [exact Hs|].
  destruct (bounded_lookback_refines_two_pointer _ Hs) as [<- _].
  split; reflexivity.
Defined.

(** C7. At the later of two messages the window count includes the
    earlier one when they are exactly 30 whole days apart, and leaves it
    out when they are 31 whole days apart. *)
Theorem window_boundary_inclusive a b :
  (days_between b a = 30 →
     in_window 30 (Some b) (Some a) = true ∧
     window_count 30 10 [Some a; Some b] 1 = 2%nat) ∧
  (days_between b a = 31 →
     in_window 30 (Some b) (Some a) = false ∧
     window_count 30 10 [Some a; Some b] 1 = 1%nat).
Proof.
  unfold window_count, slice, in_window; simpl.
  rewrite !filter_cons, !days_between_diag. simpl.
  split; intros ->; simpl; done.
Qed.

Lemma window_boundary_inclusive_witness :
  days_between (day 30) (day 0) = 30 ∧ days_between (day 31) (day 0) = 31 ∧
  window_count 30 10 [Some (day 0); Some (day 30)] 1 = 2%nat ∧
  window_count 30 10 [Some (day 0); Some (day 31)] 1 = 1%nat.
Proof.
  split; [reflexivity|]. split; [reflexivity|]. split.
  - apply (window_boundary_inclusive (day 0) (day 30)). reflexivity.
  - apply (window_boundary_inclusive (day 0) (day 31)). reflexivity.
Defined.

(** C10. Two frames with the same Negative rows have the same flagged
    set: Positive and Neutral rows do not reach the scan. *)
Theorem detect_negative_only df1 df2 :
  filter (λ r, sentiment_label r = Negative) df1 =
  filter (λ r, sentiment_label r = Negative) df2 →
  flight_risk df1 = flight_risk df2 ∧
  ∀ W T, detect W T df1 = detect W T df2.
Proof.
  intros Heq. unfold flight_risk, detect, df_neg. by rewrite Heq.
Qed.

(** ** Monthly ranking *)

Lemma StronglySorted_sublist {A} (R : relation A) (s l : list A) :
  s `sublist_of` l → StronglySorted R l → StronglySorted R s.
Proof.
  induction 1 as [|x s l Hsub IH|x s l Hsub IH]; intros Hl; [done|..];
    apply StronglySorted_inv in Hl as [Hl Hx]; [|by apply IH].
  constructor; [by apply IH|].
  apply Forall_lookup_2. intros k y Hk. apply list_elem_of_lookup_2 in Hk.
  eapply sublist_subseteq in Hk; [|done].
  apply list_elem_of_lookup_1 in Hk as [j Hj]. by eapply Forall_lookup_1.
Qed.

Lemma group_size_cons r t m :
  group_size (r :: t) m =
  ((if decide (ms_month r = m) then 1 else 0) + group_size t m)%nat.
Proof. unfold group_size. rewrite filter_cons. by case_decide. Qed.

Lemma group_size_snoc t r m :
  group_size (t ++ [r]) m =
  (group_size t m + (if decide (ms_month r = m) then 1 else 0))%nat.
Proof.
  unfold group_size. rewrite list.filter_app, List.length_app, filter_cons.
  by case_decide.
Qed.

Lemma group_size_Permutation t t' m : t ≡ₚ t' → group_size t m = group_size t' m.
Proof. intros Ht. unfold group_size. by rewrite Ht. Qed.

Lemma head_from_sublist limit seen t : head_from limit seen t `sublist_of` t.
Proof.
  revert seen. induction t as [|r t IH]; intros seen; simpl; [constructor|].
  case_decide; [apply sublist_skip | apply sublist_cons]; apply IH.
Qed.

(** A grouped [head] keeps, of each month, as many rows as lie between
    the running position and the limit. *)
Lemma group_size_head_from limit seen t m :
  Z.of_nat (group_size (head_from limit seen t) m) =
  Z.max 0 (Z.min (limit m - Z.of_nat (group_size seen m))
                 (Z.of_nat (group_size t m))).
Proof.
  revert seen. induction t as [|r t IH]; intros seen; simpl.
  { unfold group_size at 1 3. simpl. lia. }
  specialize (IH (seen ++ [r])). rewrite group_size_snoc in IH.
  rewrite (group_size_cons r t).
  destruct (decide (ms_month r = m)) as [Heq|Hne].
  - rewrite Heq. case_decide; [rewrite group_size_cons, decide_True by done|]; lia.
  - case_decide; [rewrite group_size_cons, decide_False by done|]; lia.
Qed.

Lemma group_size_groupby_month_head n t m :
  Z.of_nat (group_size (groupby_month_head n t) m) =
  if 0 <=? n then Z.min n (Z.of_nat (group_size t m))
  else Z.max 0 (Z.of_nat (group_size t m) + n).
Proof.
  unfold groupby_month_head. rewrite group_size_head_from.
  change (group_size [] m) with 0%nat. destruct (Z.leb_spec 0 n); lia.
Qed.

Lemma rank_top_sublist k d scores :
  rank_top k d scores `sublist_of` merge_sort (rank_le d) scores.
Proof. apply head_from_sublist. Qed.

Lemma rank_top_sorted k d scores : StronglySorted (rank_le d) (rank_top k d scores).
Proof.
  eapply StronglySorted_sublist; [apply rank_top_sublist|].
  apply StronglySorted_merge_sort; apply _.
Qed.

Lemma merge_sort_rank_Permutation d scores scores' :
  scores ≡ₚ scores' →
  merge_sort (rank_le d) scores = merge_sort (rank_le d) scores'.
Proof.
  intros Hperm. apply (StronglySorted_unique (rank_le d));
    [apply StronglySorted_merge_sort; apply _..|].
  by rewrite !merge_sort_Permutation.
Qed.

Lemma group_size_app t1 t2 m :
  group_size (t1 ++ t2) m = (group_size t1 m + group_size t2 m)%nat.
Proof. unfold group_size. by rewrite list.filter_app, List.length_app. Qed.

Lemma group_size_take_mono t i j m :
  (j ≤ i)%nat → (group_size (take j t) m ≤ group_size (take i t) m)%nat.
Proof.
  intros Hji. replace i with (j + (i - j))%nat by lia.
  rewrite <-take_take_drop, group_size_app. lia.
Qed.

(** A row is kept by a grouped [head] when, at its place in the frame,
    the rows of its month passed so far are fewer than the limit. *)
Lemma elem_of_head_from limit seen t r :
  r ∈ head_from limit seen t ↔
  ∃ i, t !! i = Some r ∧
       Z.of_nat (group_size (seen ++ take i t) (ms_month r)) < limit (ms_month r).
Proof.
  revert seen. induction t as [|x t IH]; intros seen; simpl.
  { split; [by intros ?%elem_of_nil | by intros (i & ? & _)]. }
  case_decide as Hx.
  - rewrite elem_of_cons, IH. split.
    + intros [->|(i & Hi & Hlt)].
      * exists 0%nat. simpl. by rewrite app_nil_r.
      * exists (S i). simpl. by rewrite <-app_assoc in Hlt.
    + intros ([|i] & Hi & Hlt); simpl in *.
      * left. by simplify_eq.
      * right. exists i. by rewrite <-app_assoc.
  - rewrite IH. split.
    + intros (i & Hi & Hlt). exists (S i). simpl. by rewrite <-app_assoc in Hlt.
    + intros ([|i] & Hi & Hlt); simpl in *.
      * simplify_eq. by rewrite app_nil_r in Hlt.
      * exists i. by rewrite <-app_assoc.
Qed.

Lemma groupby_month_head_nonneg k t :
  0 ≤ k → groupby_month_head k t = head_from (λ _, k) [] t.
Proof.
  intros Hk. unfold groupby_month_head.
  by destruct (Z.leb_spec 0 k); [|lia].
Qed.

Lemma filter_none {A} (P : A → Prop) `{!∀ x, Decision (P x)} (l : list A) :
  Forall (λ x, ¬ P x) l → filter P l = [].
Proof. induction 1; [done|]. by rewrite filter_cons_False. Qed.

Lemma ranks_before_rank_le d b a :
  ranks_before d b a ↔ ms_month b = ms_month a ∧ rank_le d b a ∧ b ≠ a.
Proof.
  unfold ranks_before, rank_le, lex_le, rank_key. simpl. split.
  - intros [Hm Hcase]. split; [done|]. split.
    + split; [lia|]. intros _. destruct Hcase as [[Hs Hne]|(Hs & He & Hne)].
      * split; [done|]. intros Hs'. destruct Hne.
        by apply (anti_symm (score_le d)).
      * split; [rewrite Hs; apply reflexivity | done].
    + intros ->. naive_solver.
  - intros (Hm & [_ Hle] & Hne). split; [done|].
    destruct Hle as [Hs He]; [lia|].
    destruct (decide (ms_score b = ms_score a)) as [Heq|]; [right | by left].
    split; [done|]. split; [apply He; rewrite Heq; apply reflexivity|].
    intros Hee. apply Hne. destruct a, b; simpl in *; by subst.
Qed.

(** In a sorted frame without repeated rows, the rows before a row are
    the rows that rank before it. *)
Lemma sorted_before_filter d t i a :
  StronglySorted (rank_le d) t → NoDup t → t !! i = Some a →
  filter (λ b, rank_le d b a ∧ b ≠ a) t = take i t.
Proof.
  intros Hsort Hdup Hi.
  rewrite <-(take_drop_middle t i a Hi) at 1.
  rewrite list.filter_app, filter_cons_False by naive_solver.
  rewrite filter_all, filter_none; [by rewrite app_nil_r| |].
  - apply Forall_lookup_2. intros j b Hj. rewrite lookup_drop in Hj.
    intros [Hle Hne]. apply Hne. apply (anti_symm (rank_le d)); [done|].
    apply (StronglySorted_lookup_le (rank_le d) t i (S i + j));
      [done | lia | done..].
  - apply Forall_lookup_2. intros j b Hj.
    apply lookup_take_Some in Hj as [Hj Hlt]. split.
    + apply (StronglySorted_lookup_le (rank_le d) t j i); [done | lia | done..].
    + intros ->. pose proof (NoDup_lookup t i j a Hdup Hi Hj). lia.
Qed.

(** A row that is left out does not come before a kept row of its
    month. *)
Lemma rank_top_kept_before_dropped k d scores a b :
  a ∈ rank_top k d scores → b ∈ scores → b ∉ rank_top k d scores →
  ms_month a = ms_month b → rank_le d a b.
Proof.
  unfold rank_top, groupby_month_head.
  set (t := merge_sort (rank_le d) scores).
  set (limit := λ m, if 0 <=? k then k else Z.of_nat (group_size t m) + k).
  intros (i & Hi & Hlt)%elem_of_head_from Hb Hout Hm.
  assert (b ∈ t) as [j Hj]%list_elem_of_lookup_1
    by (unfold t; by rewrite merge_sort_Permutation).
  assert (¬ Z.of_nat (group_size (take j t) (ms_month b)) < limit (ms_month b))
    as Hge.
  { intros Hlt'. apply Hout, elem_of_head_from. by exists j. }
  simpl in Hlt. rewrite Hm in Hlt.
  assert (i < j)%nat as Hij.
  { destruct (decide (i < j)%nat); [done|].
    pose proof (group_size_take_mono t i j (ms_month b)). lia. }
  apply (StronglySorted_lookup_le (rank_le d) t i j);
    [apply StronglySorted_merge_sort; apply _ | lia | done..].
Qed.

(** Of score rows without repetition, a ranking with [k >= 0] keeps
    exactly the rows that fewer than [k] rows rank before. *)
Lemma rank_top_kept_iff k d scores a :
  0 ≤ k → NoDup scores → a ∈ scores →
  a ∈ rank_top k d scores ↔
  Z.of_nat (length (filter (λ b, ranks_before d b a) scores)) < k.
Proof.
  intros Hk Hdup Ha. unfold rank_top.
  rewrite groupby_month_head_nonneg, elem_of_head_from by done.
  set (t := merge_sort (rank_le d) scores).
  assert (StronglySorted (rank_le d) t) as Hsort
    by (apply StronglySorted_merge_sort; apply _).
  assert (NoDup t) as Hdup' by (unfold t; by rewrite merge_sort_Permutation).
  assert (a ∈ t) as [i Hi]%list_elem_of_lookup_1
    by (unfold t; by rewrite merge_sort_Permutation).
  assert (length (filter (λ b, ranks_before d b a) scores) =
          group_size (take i t) (ms_month a)) as ->.
  { unfold group_size. rewrite <-(sorted_before_filter d t i a) by done.
    rewrite list_filter_filter.
    rewrite <-(merge_sort_Permutation (rank_le d) scores). fold t.
    f_equal. apply list_filter_iff. intros b. apply ranks_before_rank_le. }
  simpl. split.
  - intros (j & Hj & Hlt). by rewrite (NoDup_lookup t i j a Hdup' Hi Hj).
  - intros Hlt. by exists i.
Qed.

(** C2. Ties are broken by employee id ascending in both rankings, also
    at the cut. Two rows of one month with equal score appear in ascending
    order of employee. Of two such rows of the given scores, the one with
    the larger id is never kept without the one with the smaller id. Of
    score rows without repetition the ranking (for [k >= 0]) keeps exactly
    the rows that have fewer than [k] rows of their month before them,
    counting as before a row the rows with a better score and the rows with
    the same score and a smaller employee id. The ranking is a function of
    the set of score rows: running it again, on the rows in any order,
    gives the same ordered output. *)
Theorem rank_top_tie_break k d scores :
  (∀ i j a b,
     rank_top k d scores !! i = Some a → rank_top k d scores !! j = Some b →
     (i < j)%nat → ms_month a = ms_month b → ms_score a = ms_score b →
     String.le (ms_employee a) (ms_employee b)) ∧
  (∀ scores', scores ≡ₚ scores' → rank_top k d scores' = rank_top k d scores) ∧
  (∀ a b,
     a ∈ scores → b ∈ rank_top k d scores →
     ms_month a = ms_month b → ms_score a = ms_score b →
     String.le (ms_employee a) (ms_employee b) →
     a ∈ rank_top k d scores) ∧
  (0 ≤ k → NoDup scores →
   ∀ a, a ∈ scores →
        (a ∈ rank_top k d scores ↔
         Z.of_nat (length (filter (λ b, ranks_before d b a) scores)) < k)).
Proof.
  split; [|split; [|split]].
  - intros i j a b Ha Hb Hij Hm Hs.
    assert (rank_le d a b) as (_ & Hle).
    { apply (StronglySorted_lookup_le (rank_le d) (rank_top k d scores) i j);
        [apply rank_top_sorted | lia | done..]. }
    unfold rank_key in Hle. simpl in Hle. rewrite Hm in Hle.
    destruct (Hle ltac:(done)) as [_ Hle']. apply Hle'.
    rewrite Hs. destruct d; simpl; lia.
  - intros scores' Hperm. unfold rank_top.
    by rewrite (merge_sort_rank_Permutation d scores scores').
  - intros a b Ha Hb Hm Hs He.
    destruct (decide (a ∈ rank_top k d scores)) as [|Hout]; [done|].
    assert (rank_le d b a) as Hba
      by by apply (rank_top_kept_before_dropped k d scores).
    assert (rank_le d a b) as Hab.
    { unfold rank_le, lex_le, rank_key. simpl. rewrite Hm, Hs.
      split; [lia|]. intros _. split; [apply reflexivity | done]. }
    by rewrite (anti_symm (rank_le d) a b Hab Hba) in Hout.
  - intros Hk Hdup a Ha. by apply rank_top_kept_iff.
Qed.

Lemma rank_top_tie_break_witness :
  let scores := [ScoreRow "bob" 5 2; ScoreRow "alice" 5 2; ScoreRow "carol" 5 (-1);
                 ScoreRow "dave" 5 2; ScoreRow "eve" 5 7]%string in
  (ScoreRow "alice" 5 2 ∈ top_3_pos scores) ∧
  (ScoreRow "dave" 5 2 ∉ top_3_pos scores) ∧
  (ScoreRow "alice" 5 2 ∈ top_3_neg scores) ∧
  (ScoreRow "dave" 5 2 ∉ top_3_neg scores).
Proof.
  intros scores.
  assert (NoDup scores) as Hdup by (apply (bool_decide_unpack _); vm_compute; exact I).
  pose proof (rank_top_tie_break 3 best scores) as (_ & _ & _ & Hbest).
  pose proof (rank_top_tie_break 3 worst scores) as (_ & _ & _ & Hworst).
  specialize (Hbest ltac:(lia) Hdup). specialize (Hworst ltac:(lia) Hdup).
  split; [|split; [|split]].
  - apply Hbest; [right; left | vm_compute; reflexivity].
  - rewrite Hbest by (do 3 right; left). vm_compute. congruence.
  - apply Hworst; [right; left | vm_compute; reflexivity].
  - rewrite Hworst by (do 3 right; left). vm_compute. congruence.
Defined.

Example top_3_tie_break :
  let scores := [ScoreRow "bob" 5 2; ScoreRow "alice" 5 2; ScoreRow "carol" 5 (-1);
                 ScoreRow "dave" 5 2; ScoreRow "eve" 5 7]%string in
  top_3_pos scores = [ScoreRow "eve" 5 7; ScoreRow "alice" 5 2; ScoreRow "bob" 5 2]%string ∧
  top_3_neg scores = [ScoreRow "carol" 5 (-1); ScoreRow "alice" 5 2; ScoreRow "bob" 5 2]%string.
Proof. split; vm_compute; reflexivity. Qed.

(** C9. For a non-negative [k] the ranking holds, of every month,
    [min k n] rows where [n] is the number of score rows of that month,
    and every row it holds is one of the given score rows. *)
Theorem rank_top_shortfall k d scores m :
  0 ≤ k →
  Z.of_nat (group_size (rank_top k d scores) m) =
    Z.min k (Z.of_nat (group_size scores m)) ∧
  rank_top k d scores ⊆ scores.
Proof.
  intros Hk. split.
  - unfold rank_top. rewrite group_size_groupby_month_head.
    rewrite (group_size_Permutation _ scores) by apply merge_sort_Permutation.
    by destruct (Z.leb_spec 0 k); [|lia].
  - intros r Hr. eapply sublist_subseteq in Hr; [|apply rank_top_sublist].
    by rewrite merge_sort_Permutation in Hr.
Qed.

Lemma rank_top_shortfall_witness :
  top_3_pos [ScoreRow "ann" 7 1; ScoreRow "bob" 7 (-2)]%string
    = [ScoreRow "ann" 7 1; ScoreRow "bob" 7 (-2)]%string ∧
  Z.of_nat (group_size (rank_top 3 best [ScoreRow "ann" 7 1; ScoreRow "bob" 7 (-2)]%string) 7) = 2.
Proof.
  split; [vm_compute; reflexivity|].
  destruct (rank_top_shortfall 3 best [ScoreRow "ann" 7 1; ScoreRow "bob" 7 (-2)]%string 7)
    as [-> _]; [lia | reflexivity].
Defined.

(** ** Monthly aggregation *)

Lemma filter_fmap {A B} (f : A → B) (P : B → Prop) `{!∀ y, Decision (P y)}
    (l : list A) :
  filter P (f <$> l) = f <$> filter (λ x, P (f x)) l.
Proof.
  induction l as [|x l IH]; [done|].
  rewrite fmap_cons, !filter_cons. case_decide; [rewrite fmap_cons|]; by rewrite IH.
Qed.

Lemma filter_eq_NoDup {A} `{!EqDecision A} (l : list A) k :
  NoDup l → filter (λ x, x = k) l = if decide (k ∈ l) then [k] else [].
Proof.
  induction 1 as [|x l Hx Hl IH]; [done|]. rewrite filter_cons, IH.
  destruct (decide (x = k)) as [->|Hne].
  - rewrite decide_False by done. by rewrite decide_True by left.
  - destruct (decide (k ∈ l)).
    + by rewrite decide_True by by right.
    + rewrite decide_False; [done|]. by intros [?|?]%elem_of_cons.
Qed.

Lemma elem_of_group_keys df k : k ∈ group_keys df ↔ group_rows df k ≠ [].
Proof.
  unfold group_keys, group_rows.
  rewrite merge_sort_Permutation, elem_of_remove_dups, list_elem_of_omap. split.
  - intros (r & Hr & Hk) Hnil.
    destruct (month r) as [m|] eqn:Hm; simplify_eq/=.
    by apply (filter_nil_not_elem_of _ _ r) in Hnil.
  - intros Hne.
    destruct (filter _ df) as [|r g] eqn:Hg; [done|].
    assert (r ∈ filter (λ r, employee r = k.1 ∧ month r = Some k.2) df) as Hr
      by (rewrite Hg; left).
    apply list_elem_of_filter in Hr as [[He Hm] Hr].
    exists r. split; [done|]. rewrite Hm. simpl. rewrite He. by destruct k.
Qed.

Lemma NoDup_group_keys df : NoDup (group_keys df).
Proof.
  unfold group_keys. rewrite merge_sort_Permutation. apply NoDup_remove_dups.
Qed.

Lemma sum_Z_score (g : list row) :
  sum_Z (score <$> g) =
  Z.of_nat (length (filter (λ r, sentiment_label r = Positive) g)) -
  Z.of_nat (length (filter (λ r, sentiment_label r = Negative) g)).
Proof.
  induction g as [|r g IH]; [done|].
  rewrite fmap_cons, !filter_cons. simpl. rewrite IH. unfold score.
  destruct (sentiment_label r); simpl; lia.
Qed.

(** C3. [monthly_scores] holds exactly one row for every employee and
    month that have a row with a parsed date, and none for the others; the
    row's score is the number of that employee's Positive rows of that
    month minus the number of that employee's Negative rows of that
    month. *)
Theorem monthly_scores_exact df emp m :
  let recs := filter (λ r, employee r = emp ∧ month r = Some m) df in
  let rows := filter (λ s, ms_employee s = emp ∧ ms_month s = m) (monthly_scores df) in
  (recs ≠ [] →
     rows = [ScoreRow emp m
               (Z.of_nat (length (filter (λ r, sentiment_label r = Positive) recs)) -
                Z.of_nat (length (filter (λ r, sentiment_label r = Negative) recs)))]) ∧
  (recs = [] → rows = []).
Proof.
  intros recs rows.
  assert (rows = (λ k, ScoreRow k.1 k.2 (sum_Z (score <$> group_rows df k))) <$>
                 (if decide ((emp, m) ∈ group_keys df) then [(emp, m)] else []))
    as Hrows.
  { unfold rows, monthly_scores. rewrite filter_fmap. simpl.
    rewrite <-(filter_eq_NoDup _ _ (NoDup_group_keys df)).
    f_equal. apply list_filter_iff. intros [e' m']. simpl. naive_solver. }
  rewrite Hrows. split; intros Hrecs.
  - rewrite decide_True by by apply elem_of_group_keys.
    simpl. by rewrite sum_Z_score.
  - rewrite decide_False; [done|]. rewrite elem_of_group_keys.
    intros Hne. by apply Hne.
Qed.

Example monthly_scores_sample :
  monthly_scores
    [Row "bob" (Some (day 1)) Positive None; Row "amy" (Some (day 40)) Negative None;
     Row "bob" (Some (day 3)) Positive None; Row "bob" None Positive None;
     Row "bob" (Some (day 35)) Neutral None; Row "amy" (Some (day 41)) Negative None]%string
  = [ScoreRow "amy" 1 (-2); ScoreRow "bob" 0 2; ScoreRow "bob" 1 0]%string.
Proof. vm_compute. reflexivity. Qed.

(** ** Rows without a parsed date *)

Lemma omap_cons {A B} (f : A → option B) x l :
  omap f (x :: l) = match f x with Some y => y :: omap f l | None => omap f l end.
Proof. done. Qed.

Lemma omap_filter_defined {A B} (f : A → option B) (P : A → Prop)
    `{!∀ x, Decision (P x)} (l : list A) :
  (∀ x, ¬ P x → f x = None) → omap f (filter P l) = omap f l.
Proof.
  intros Hf. induction l as [|x l IH]; [done|].
  rewrite filter_cons, (omap_cons f x l). case_decide as HP.
  - by rewrite omap_cons, IH.
  - by rewrite (Hf x HP).
Qed.

Lemma group_keys_parsed df :
  group_keys (filter (λ r, is_Some (date r)) df) = group_keys df.
Proof.
  unfold group_keys. do 2 f_equal. apply omap_filter_defined.
  intros r Hr. unfold month. destruct (date r); [|done]. by destruct Hr.
Qed.

Lemma group_rows_parsed df k :
  group_rows (filter (λ r, is_Some (date r)) df) k = group_rows df k.
Proof.
  unfold group_rows. induction df as [|r df IH]; [done|].
  rewrite !filter_cons. destruct (decide (is_Some (date r))) as [Hd|Hd].
  - rewrite filter_cons. by rewrite IH.
  - rewrite IH. rewrite decide_False; [done|]. intros [_ Hm]. apply Hd.
    unfold month in Hm. by destruct (date r).
Qed.

(** C8. Rows whose date did not parse can be deleted from the frame
    without changing the monthly scores or the flagged set, and no window
    count counts a comparison that involves [NaT]. *)
Theorem null_timestamp_excluded df :
  monthly_scores df = monthly_scores (filter (λ r, is_Some (date r)) df) ∧
  flight_risk df = flight_risk (filter (λ r, is_Some (date r)) df) ∧
  ∀ W d, in_window W None d = false ∧ in_window W d None = false.
Proof.
  split; [|split].
  - unfold monthly_scores. rewrite group_keys_parsed.
    apply list_fmap_ext. intros _ k _. by rewrite group_rows_parsed.
  - apply set_eq. intros emp. unfold flight_risk.
    rewrite !detect_has_window by lia. by rewrite neg_dates_parsed.
  - intros W d. split; [done|]. by destruct d.
Qed.

Example null_timestamp_sample :
  let df := [neg "al" 1; Row "al" None Negative None; neg "al" 2;
             Row "al" None Positive (Some "x"); neg "al" 3; neg "al" 4]%string in
  flight_risk df = {[ "al"%string ]} ∧
  monthly_scores df = [ScoreRow "al" 0 (-4)]%string.
Proof. split; vm_compute; reflexivity. Qed.

(** ** Feature table *)

Lemma nan_count_msg_length (g : list row) :
  nan_count (msg_length <$> g) = length (omap body g).
Proof.
  unfold nan_count. induction g as [|r g IH]; [done|].
  rewrite fmap_cons, filter_cons, omap_cons.
  destruct (body r) as [b|] eqn:Hb.
  - rewrite decide_True by (unfold msg_length; by rewrite Hb).
    simpl. by rewrite IH.
  - rewrite decide_False; [done|].
    unfold msg_length. rewrite Hb. by intros [? [=]].
Qed.

Lemma nan_sum_msg_length (g : list row) :
  sum_Z (default 0 <$> (msg_length <$> g)) =
  sum_Z ((λ b, Z.of_nat (String.length b)) <$> omap body g).
Proof.
  induction g as [|r g IH]; [done|].
  rewrite !fmap_cons, omap_cons. unfold msg_length at 1.
  destruct (body r); simpl; by rewrite IH.
Qed.

Lemma mean_missing_as_zero_no_body (g : list row) :
  omap body g = [] → mean_missing_as_zero g = Qc_of_Z 0.
Proof.
  intros Hg. unfold mean_missing_as_zero.
  assert (sum_Z ((λ r, default 0 (msg_length r)) <$> g) = 0) as ->.
  { rewrite (list_fmap_compose msg_length (default 0)), nan_sum_msg_length.
    by rewrite Hg. }
  unfold Qcdiv. rewrite Z2Qc_inj_0. apply Qcmult_0_l.
Qed.

(** C6. Where the claim reports 0 the notebook reports NaN: whenever the
    feature table is built, a group none of whose messages has a body has
    [avg_length] NaN, while the mean that counts a missing body as length 0
    is 0. So it is on the frame below for bob; for cy, who has one body of
    length 4 and one missing body, [avg_length] is 4 where that mean is
    2. *)
Theorem avg_length_all_missing_is_nan :
  (∀ df fs f,
     features df = inr fs → f ∈ fs →
     omap body (group_rows df (ft_employee f, ft_month f)) = [] →
     avg_length f = None ∧
     mean_missing_as_zero (group_rows df (ft_employee f, ft_month f)) = Qc_of_Z 0) ∧
  let df := [Row "amy" (Some (day 1)) Positive (Some "abcd");
             Row "bob" (Some (day 1)) Neutral None;
             Row "cy" (Some (day 2)) Positive (Some "abcd");
             Row "cy" (Some (day 3)) Neutral None]%string in
  features df = inr [FeatureRow "amy" 0 1 (Some (4 # 1)%Q) 1;
                     FeatureRow "bob" 0 0 None 0;
                     FeatureRow "cy" 0 1 (Some (4 # 1)%Q) 1]%string ∧
  mean_missing_as_zero (group_rows df ("bob"%string, 0)) = Qc_of_Z 0 ∧
  mean_missing_as_zero (group_rows df ("cy"%string, 0)) = Qc_of_Z 2.
Proof.
  split.
  - intros df fs f Hfs Hf Hg. unfold features in Hfs.
    case_decide; [done|]. simplify_eq.
    apply list_elem_of_fmap in Hf as ([e m] & -> & Hk). simpl in *.
    split; [|by apply mean_missing_as_zero_no_body].
    unfold nan_mean. by rewrite nan_count_msg_length, Hg.
  - split; [vm_compute; reflexivity|].
    split; apply Qc_is_canon; vm_compute; reflexivity.
Qed.

Example features_no_body_raises :
  features [Row "bob" (Some (day 1)) Neutral None]%string = inl AttributeError.
Proof. reflexivity. Qed.

Example features_mean_is_rounded :
  features
    [Row "bob" (Some (day 1)) Neutral (Some "ab");
     Row "bob" (Some (day 2)) Neutral (Some "ab");
     Row "bob" (Some (day 3)) Neutral (Some "a")]%string
  = inr [FeatureRow "bob" 0 0
           (Some (7505999378950827 # 4503599627370496)%Q) 3]%string.
Proof. vm_compute. reflexivity. Qed.

Lemma detect_negative_only_witness :
  let df1 := [neg "al" 1; Row "al" (Some (day 2)) Positive None; neg "al" 2;
              neg "al" 3; neg "al" 4]%string in
  let df2 := [Row "zoe" None Neutral None; neg "al" 1; neg "al" 2; neg "al" 3;
              Row "al" (Some (day 3)) Neutral (Some "x"); neg "al" 4]%string in
  filter (λ r, sentiment_label r = Negative) df1 =
  filter (λ r, sentiment_label r = Negative) df2 ∧
  flight_risk df1 = flight_risk df2.
Proof.
  intros df1 df2.
  assert (filter (λ r, sentiment_label r = Negative) df1 =
          filter (λ r, sentiment_label r = Negative) df2) as Heq by reflexivity.
  split; [exact Heq|]. exact (proj1 (detect_negative_only df1 df2 Heq)).
Defined.

(** * Further properties of the cells *)

(** ** Flight risk: what the lookback and the frame allow *)

Lemma window_count_le W L dates i : (window_count W L dates i ≤ L + 1)%nat.
Proof.
  unfold window_count, slice. destruct (dates !! i); [|lia].
  etrans; [apply length_filter|]. rewrite length_take. lia.
Qed.

Lemma scan_threshold_beyond_lookback W T L dates :
  Z.of_nat L + 1 < T → scan W T L dates = false.
Proof.
  intros HT. apply not_true_is_false. unfold scan.
  rewrite existsb_exists. intros (i & _ & Hle%Z.leb_le).
  pose proof (window_count_le W L dates i). lia.
Qed.

(** X1. A count looks at 11 records at most, so with a threshold of 12 or
    more the cell flags nobody, whatever the frame holds. *)
Theorem detect_threshold_beyond_lookback W T df :
  12 ≤ T → detect W T df = ∅.
Proof.
  intros HT. apply set_eq. intros emp.
  rewrite elem_of_detect, scan_threshold_beyond_lookback by lia. set_solver.
Qed.

Lemma detect_threshold_beyond_lookback_witness :
  detect 30 12 (replicate 12 (neg "eve" 1)) = ∅ ∧
  has_window 30 12 (neg_dates (replicate 12 (neg "eve" 1)) "eve").
Proof.
  split; [apply detect_threshold_beyond_lookback; lia|].
  exists (replicate 12 (day 1)). split; [reflexivity|]. split; [reflexivity|].
  intros x y ->%elem_of_replicate_inv ->%elem_of_replicate_inv.
  vm_compute. congruence.
Defined.

Lemma neg_dates_sublist df1 df2 emp :
  df1 `sublist_of` df2 → neg_dates df1 emp `sublist_of` neg_dates df2 emp.
Proof.
  unfold neg_dates. induction 1 as [|r l1 l2 Hsub IH|r l1 l2 Hsub IH];
    [constructor|..]; rewrite ?omap_cons; destruct (if decide _ then _ else _);
    auto using sublist_skip, sublist_cons.
Qed.

Lemma has_window_sublist W n ts ts' :
  ts `sublist_of` ts' → has_window W n ts → has_window W n ts'.
Proof.
  intros Hsub (s & Hs & Hlen & Hpair). exists s. split; [by etrans|done].
Qed.

Lemma has_window_weaken W W' n n' ts :
  W ≤ W' → (n' ≤ n)%nat → has_window W n ts → has_window W' n' ts.
Proof.
  intros HW Hn (s & Hs & Hlen & Hpair). exists (take n' s). split; [|split].
  - etrans; [apply sublist_take | done].
  - rewrite length_take. lia.
  - intros x y Hx Hy. etrans; [|exact HW].
    apply Hpair; (eapply sublist_subseteq; [apply sublist_take | done]).
Qed.

(** X2. Messages that are added to a frame never take a flag away. *)
Theorem flight_risk_monotone df1 df2 :
  df1 `sublist_of` df2 → flight_risk df1 ⊆ flight_risk df2.
Proof.
  intros Hsub emp. unfold flight_risk. rewrite !detect_has_window by lia.
  apply has_window_sublist. by apply neg_dates_sublist.
Qed.

Lemma flight_risk_monotone_witness :
  let df := [neg "al" 1; neg "al" 2; neg "al" 3; neg "al" 4] in
  let df' := [neg "al" 1; neg "bo" 9; neg "al" 2; neg "al" 3;
              Row "al" None Neutral None; neg "al" 4]%string in
  df `sublist_of` df' ∧ "al"%string ∈ flight_risk df'.
Proof.
  intros df df'.
  assert (df `sublist_of` df') as Hsub.
  { unfold df, df'. repeat (apply sublist_skip || apply sublist_cons).
    constructor. }
  split; [exact Hsub|].
  apply (flight_risk_monotone df df' Hsub). vm_compute. reflexivity.
Defined.

(** X3. A wider window or a lower threshold (within 1 to 11) flags at
    least the same employees. *)
Theorem detect_monotone_parameters W W' T T' df :
  W ≤ W' → 1 ≤ T' → T' ≤ T → T ≤ 11 → detect W T df ⊆ detect W' T' df.
Proof.
  intros HW HT1 HT2 HT3 emp. rewrite !detect_has_window by lia.
  apply has_window_weaken; [done | lia].
Qed.

Lemma detect_monotone_parameters_witness :
  "al"%string ∈ detect 45 3 [neg "al" 1; neg "al" 2; neg "al" 3; neg "al" 4].
Proof.
  apply (detect_monotone_parameters 30 45 4 3); [lia..|].
  vm_compute. reflexivity.
Defined.

Lemma neg_dates_own_rows df emp :
  neg_dates (filter (λ r, employee r = emp) df) emp = neg_dates df emp.
Proof.
  unfold neg_dates. apply omap_filter_defined.
  intros r Hr. rewrite decide_False; [done|]. by intros [_ ?].
Qed.

(** X4. Whether an employee is flagged depends on that employee's rows
    alone. *)
Theorem flight_risk_per_employee df emp :
  emp ∈ flight_risk df ↔ emp ∈ flight_risk (filter (λ r, employee r = emp) df).
Proof.
  unfold flight_risk. rewrite !detect_has_window by lia.
  by rewrite neg_dates_own_rows.
Qed.

Lemma df_neg_Permutation df df' : df ≡ₚ df' → df_neg df = df_neg df'.
Proof.
  intros Hperm. apply (StronglySorted_unique neg_le); [apply df_neg_sorted..|].
  unfold df_neg. by rewrite !merge_sort_Permutation, Hperm.
Qed.

(** X5. The order of the rows in the frame does not matter to the
    flagged set, for any window and threshold. *)
Theorem detect_row_order W T df df' :
  df ≡ₚ df' → detect W T df = detect W T df'.
Proof. intros Hperm. unfold detect. by rewrite (df_neg_Permutation df df'). Qed.

Lemma detect_row_order_witness :
  let df := [neg "al" 4; neg "bo" 1; neg "al" 2; neg "al" 3; neg "al" 1] in
  detect 30 4 (reverse df) = detect 30 4 df.
Proof.
  intros df. apply detect_row_order. by rewrite reverse_Permutation.
Defined.

Lemma days_between_shift x y c : days_between (x + c) (y + c) = days_between x y.
Proof. unfold days_between. f_equal. lia. Qed.

Lemma neg_dates_shift c df emp :
  neg_dates (shift_dates c df) emp = (λ t, t + c) <$> neg_dates df emp.
Proof.
  unfold neg_dates, shift_dates. induction df as [|r df IH]; [done|].
  rewrite fmap_cons, !omap_cons, IH. simpl.
  destruct (decide _); [|done]. by destruct (date r).
Qed.

Lemma has_window_shift W n c ts :
  has_window W n ts → has_window W n ((λ t, t + c) <$> ts).
Proof.
  intros (s & Hs & Hlen & Hpair). exists ((λ t, t + c) <$> s).
  split; [by apply fmap_sublist|]. split; [by rewrite length_fmap|].
  intros x y (x0 & -> & Hx)%list_elem_of_fmap (y0 & -> & Hy)%list_elem_of_fmap.
  rewrite days_between_shift. by apply Hpair.
Qed.

(** X6. Moving every date of the frame by the same amount of time leaves
    the flagged set as it is: only the differences of dates are read. *)
Theorem flight_risk_shift c df :
  flight_risk (shift_dates c df) = flight_risk df.
Proof.
  apply set_eq. intros emp. unfold flight_risk.
  rewrite !detect_has_window, neg_dates_shift by lia. split; [|apply has_window_shift].
  intros H%(has_window_shift _ _ (- c)). rewrite <-list_fmap_compose in H.
  rewrite (list_fmap_ext _ id (neg_dates df emp)) in H.
  - by rewrite list_fmap_id in H.
  - intros _ t _. simpl. lia.
Qed.

(** ** Sentiment labelling *)

Lemma compound_threshold_pos : (0 < compound_threshold)%Q.
Proof. reflexivity. Qed.

(** X7. A higher compound value never gives a lower score: the score of
    a message is monotone in the analyzer's compound value. *)
Theorem get_sentiment_monotone compound t1 t2 :
  (compound t1 <= compound t2)%Q →
  score_mapper (get_sentiment compound (Some t1)) ≤
  score_mapper (get_sentiment compound (Some t2)).
Proof.
  intros Hle. pose proof compound_threshold_pos as Hpos. simpl.
  destruct (Qle_bool compound_threshold (compound t1)) eqn:H1,
    (Qle_bool compound_threshold (compound t2)) eqn:H2,
    (Qle_bool (compound t1) (- compound_threshold)) eqn:H3,
    (Qle_bool (compound t2) (- compound_threshold)) eqn:H4;
    simpl; try lia; exfalso;
    rewrite ?Qle_bool_iff in *;
    repeat match goal with
           | H : Qle_bool _ _ = false |- _ =>
               apply not_true_iff_false in H; rewrite Qle_bool_iff in H
           end; lra.
Qed.

Lemma get_sentiment_monotone_witness :
  score_mapper (get_sentiment (λ t, if String.eqb t "bad" then -(1#2) else 1#2)%Q
                  (Some "bad"%string)) ≤
  score_mapper (get_sentiment (λ t, if String.eqb t "bad" then -(1#2) else 1#2)%Q
                  (Some "good"%string)).
Proof. apply get_sentiment_monotone. vm_compute. congruence. Defined.

Lemma label_frame_negative compound raw :
  filter (λ r, sentiment_label r = Negative) (label_frame compound raw) =
  filter (λ r, sentiment_label r = Negative)
    (label_frame compound (filter (λ m, is_Some (msg_body m)) raw)).
Proof.
  unfold label_frame. induction raw as [|m raw IH]; [done|].
  rewrite fmap_cons, !filter_cons.
  destruct (msg_body m) as [b|] eqn:Hb.
  - rewrite (decide_True (P := is_Some (Some b))) by done.
    rewrite fmap_cons, filter_cons. rewrite Hb. simpl. by rewrite IH.
  - rewrite (decide_False (P := is_Some None)) by (by intros [? [=]]).
    simpl. exact IH.
Qed.

(** X8. A message without a body is labelled Neutral whatever the
    analyzer says, so deleting such messages from the file changes nobody's
    flag. *)
Theorem missing_body_never_flags compound raw :
  (∀ m, msg_body m = None →
        sentiment_label <$> label_frame compound [m] = [Neutral]) ∧
  flight_risk (label_frame compound raw) =
  flight_risk (label_frame compound (filter (λ m, is_Some (msg_body m)) raw)).
Proof.
  split.
  - intros m Hm. simpl. by rewrite Hm.
  - unfold flight_risk, detect, df_neg. by rewrite label_frame_negative.
Qed.

(** ** Word counts *)

Lemma reverse_cons_ne {A} (a : A) l : reverse (a :: l) ≠ [].
Proof. rewrite reverse_cons. by destruct (reverse l). Qed.

Lemma split_go_words cur s :
  Forall (λ c, is_space c = false) cur →
  Forall (λ w, w ≠ [] ∧ Forall (λ c, is_space c = false) w) (split_go cur s).
Proof.
  revert cur. induction s as [|c s IH]; intros cur Hcur; simpl.
  - destruct cur as [|a cur]; [constructor|]. constructor; [|constructor].
    split; [apply reverse_cons_ne | by apply Forall_reverse].
  - destruct (is_space c) eqn:Hc.
    + destruct cur as [|a cur]; [by apply IH|]. constructor; [|by apply IH].
      split; [apply reverse_cons_ne | by apply Forall_reverse].
    + apply IH. by constructor.
Qed.

Lemma split_go_length cur s :
  (2 * length (split_go cur s) ≤
   length s + match cur with [] => 1 | _ => 2 end)%nat.
Proof.
  revert cur. induction s as [|c s IH]; intros cur; simpl.
  - destruct cur; simpl; lia.
  - destruct (is_space c).
    + destruct cur; simpl; [specialize (IH []); simpl in IH; lia|].
      specialize (IH []). simpl in IH. lia.
    + specialize (IH (c :: cur)). simpl in IH. destruct cur; lia.
Qed.

Lemma split_go_concat cur s :
  concat (split_go cur s) =
  reverse cur ++ filter (λ c, is_space c = false) s.
Proof.
  revert cur. induction s as [|c s IH]; intros cur; simpl.
  - destruct cur; simpl; [done|]. by rewrite !app_nil_r.
  - rewrite filter_cons. destruct (is_space c) eqn:Hc.
    + rewrite decide_False by done.
      destruct cur as [|a cur]; simpl; by rewrite IH.
    + rewrite decide_True by done. rewrite IH, reverse_cons.
      by rewrite <-app_assoc.
Qed.

Lemma split_go_nil s :
  split_go [] s = [] ↔ Forall (λ c, is_space c = true) s.
Proof.
  split.
  - intros Hnil. apply list.Forall_forall. intros c Hc.
    destruct (is_space c) eqn:Hsp; [done|].
    assert (c ∈ concat (split_go [] s)) as Hin.
    { rewrite split_go_concat. simpl. by apply list_elem_of_filter. }
    rewrite Hnil in Hin. by apply elem_of_nil in Hin.
  - induction 1 as [|c s Hc Hs IH]; [done|]. simpl. by rewrite Hc.
Qed.

Lemma length_list_ascii_of_string x :
  length (String.list_ascii_of_string x) = String.length x.
Proof. induction x as [|c x IH]; simpl; by rewrite ?IH. Qed.

(** X9. A message has at most (length + 1) / 2 words, a message without
    a body has none, and the count is 0 exactly when the body holds
    nothing but white space. *)
Theorem word_count_bound r :
  (2 * word_count r ≤ String.length (default ""%string (body r)) + 1)%nat ∧
  (body r = None → word_count r = 0%nat) ∧
  (word_count r = 0%nat ↔
   Forall (λ c, is_space c = true)
     (String.list_ascii_of_string (default ""%string (body r)))).
Proof.
  unfold word_count, split. rewrite length_fmap. split; [|split].
  - rewrite <-length_list_ascii_of_string.
    apply (split_go_length [] _).
  - by intros ->.
  - rewrite <-split_go_nil. split; [apply nil_length_inv | by intros ->].
Qed.

(** X10. [split] never returns an empty word nor a word with white space
    in it. *)
Theorem split_words_clean x w :
  w ∈ split x →
  w ≠ ""%string ∧
  Forall (λ c, is_space c = false) (String.list_ascii_of_string w).
Proof.
  unfold split. intros (l & -> & Hl)%list_elem_of_fmap.
  pose proof (split_go_words [] (String.list_ascii_of_string x) ltac:(constructor))
    as Hall.
  apply (proj1 (list.Forall_forall _ _) Hall) in Hl as [Hne Hsp].
  rewrite String.list_ascii_of_string_of_list_ascii. split; [|done].
  by destruct l.
Qed.

Lemma split_words_clean_witness :
  "to"%string ∈ split "reply  to
 all" ∧ "to"%string ≠ ""%string.
Proof.
  assert ("to"%string ∈ split "reply  to
 all") as Hin by (vm_compute; right; left).
  split; [exact Hin | exact (proj1 (split_words_clean _ _ Hin))].
Defined.

(** X11. The words, put together, are the text without its white space:
    [split] drops white space and nothing else, and keeps the order. *)
Theorem split_keeps_text x :
  concat (String.list_ascii_of_string <$> split x) =
  filter (λ c, is_space c = false) (String.list_ascii_of_string x).
Proof.
  unfold split. rewrite <-list_fmap_compose.
  rewrite (list_fmap_ext _ id (split_go [] (String.list_ascii_of_string x))).
  - rewrite list_fmap_id. apply (split_go_concat []).
  - intros _ l _. apply String.list_ascii_of_string_of_list_ascii.
Qed.

(** ** Monthly scores: order of the table, range and totals *)

Lemma filter_ext_elem {A} (P Q : A → Prop) `{!∀ x, Decision (P x)}
    `{!∀ x, Decision (Q x)} (l : list A) :
  (∀ x, x ∈ l → P x ↔ Q x) → filter P l = filter Q l.
Proof.
  induction l as [|x l IH]; intros Hext; [done|].
  rewrite !filter_cons, IH by (intros; apply Hext; by right).
  destruct (decide (P x)) as [HP|HP].
  - by rewrite decide_True by (apply Hext; [left | done]).
  - rewrite decide_False; [done|]. intros HQ. apply HP, Hext; [left | done].
Qed.

Lemma group_keys_sorted df : StronglySorted key_le (group_keys df).
Proof. apply StronglySorted_merge_sort; apply _. Qed.

Lemma group_keys_Permutation df df' : df ≡ₚ df' → group_keys df = group_keys df'.
Proof.
  intros Hperm.
  apply (StronglySorted_unique key_le); [apply group_keys_sorted..|].
  unfold group_keys. rewrite !merge_sort_Permutation.
  apply NoDup_Permutation; [apply NoDup_remove_dups..|].
  intros k. by rewrite !elem_of_remove_dups, Hperm.
Qed.

(** X12. The order of the rows in the frame does not matter to the
    monthly score table. *)
Theorem monthly_scores_row_order df df' :
  df ≡ₚ df' → monthly_scores df = monthly_scores df'.
Proof.
  intros Hperm. unfold monthly_scores.
  rewrite (group_keys_Permutation df df' Hperm).
  apply list_fmap_ext. intros _ k _. f_equal.
  rewrite !sum_Z_score. unfold group_rows. by rewrite Hperm.
Qed.

Lemma monthly_scores_row_order_witness :
  let df := [Row "bob" (Some (day 1)) Positive None;
             Row "amy" (Some (day 40)) Negative None;
             Row "bob" (Some (day 35)) Neutral None]%string in
  monthly_scores (reverse df) = monthly_scores df.
Proof.
  intros df. apply monthly_scores_row_order. by rewrite reverse_Permutation.
Defined.

(** X13. The monthly score table is ordered by employee and, for one
    employee, by month, strictly: no employee and month occur twice. *)
Theorem monthly_scores_ordered df i j a b :
  monthly_scores df !! i = Some a → monthly_scores df !! j = Some b →
  (i < j)%nat →
  String.le (ms_employee a) (ms_employee b) ∧
  (ms_employee a = ms_employee b → ms_month a < ms_month b).
Proof.
  unfold monthly_scores. rewrite !list_lookup_fmap.
  intros Ha Hb Hij.
  destruct (group_keys df !! i) as [ka|] eqn:Hka; [|done].
  destruct (group_keys df !! j) as [kb|] eqn:Hkb; [|done].
  simplify_eq/=.
  assert (key_le ka kb) as [He Hm].
  { apply (StronglySorted_lookup_le key_le (group_keys df) i j);
      [apply group_keys_sorted | lia | done..]. }
  split; [done|]. intros Heq.
  assert (ka.2 ≤ kb.2) by (apply Hm; by rewrite Heq).
  destruct (decide (ka.2 = kb.2)) as [Heq'|]; [|lia].
  assert (i = j); [|lia].
  apply (NoDup_lookup (group_keys df) i j ka); [apply NoDup_group_keys|done|].
  rewrite Hkb. f_equal. destruct ka, kb; simpl in *; by subst.
Qed.

Lemma monthly_scores_ordered_witness :
  let df := [Row "bob" (Some (day 40)) Positive None;
             Row "bob" (Some (day 1)) Negative None;
             Row "amy" (Some (day 40)) Negative None]%string in
  monthly_scores df = [ScoreRow "amy" 1 (-1); ScoreRow "bob" 0 (-1);
                       ScoreRow "bob" 1 1]%string ∧
  ms_month (ScoreRow "bob" 0 (-1)) < ms_month (ScoreRow "bob" 1 1).
Proof.
  intros df. split; [vm_compute; reflexivity|].
  refine (proj2 (monthly_scores_ordered df 1 2 (ScoreRow "bob" 0 (-1))
                   (ScoreRow "bob" 1 1) _ _ _) eq_refl);
    [vm_compute; reflexivity | vm_compute; reflexivity | lia].
Defined.

Lemma sum_Z_score_range (g : list row) :
  - Z.of_nat (length g) ≤ sum_Z (score <$> g) ≤ Z.of_nat (length g).
Proof.
  induction g as [|r g IH]; [done|]. rewrite fmap_cons. simpl.
  unfold score at 1 3. destruct (sentiment_label r); simpl; lia.
Qed.

(** X14. Every row of the monthly score table stands for at least one
    message, and its score lies between minus and plus the number of the
    employee's dated messages of that month. *)
Theorem monthly_scores_range df s :
  s ∈ monthly_scores df →
  let n := Z.of_nat (length (group_rows df (ms_employee s, ms_month s))) in
  1 ≤ n ∧ - n ≤ ms_score s ≤ n.
Proof.
  unfold monthly_scores. intros ([e m] & -> & Hk)%list_elem_of_fmap. simpl.
  split; [|apply sum_Z_score_range].
  apply elem_of_group_keys in Hk. destruct (group_rows df (e, m)); [done|].
  simpl. lia.
Qed.

Lemma monthly_scores_range_witness :
  - 2 ≤ ms_score (ScoreRow "amy" 1 (-2)) ≤ 2.
Proof.
  refine (proj2 (monthly_scores_range
    [Row "amy" (Some (day 40)) Negative None;
     Row "amy" (Some (day 41)) Negative None]%string
    (ScoreRow "amy" 1 (-2)) _)).
  vm_compute. left.
Defined.

Section partition.
Context {K : Type} `{!EqDecision K} (key : row → option K) (w : row → Z).

(** Summing group by group over distinct keys counts every row of those
    groups once. *)
Lemma sum_by_groups ks l :
  NoDup ks →
  sum_Z ((λ k, sum_Z (w <$> filter (λ r, key r = Some k) l)) <$> ks) =
  sum_Z (w <$> filter (key_in key ks) l).
Proof.
  induction 1 as [|k0 ks Hk0 Hks IH].
  - assert (filter (key_in key []) l = []) as ->; [|done].
    induction l as [|r l IHl]; [done|].
    rewrite filter_cons_False; [done|]. unfold key_in.
    destruct (key r); simpl; [apply not_elem_of_nil | tauto].
  - rewrite fmap_cons. simpl. rewrite IH. clear IH.
    induction l as [|r l IHl]; [done|].
    assert (key_in key (k0 :: ks) r ↔ key r = Some k0 ∨ key_in key ks r) as Hcons.
    { unfold key_in. destruct (key r) as [k|]; simpl; [|naive_solver].
      rewrite elem_of_cons. naive_solver. }
    assert (key r = Some k0 → ¬ key_in key ks r) as Hdisj.
    { unfold key_in. by intros ->. }
    rewrite !filter_cons.
    destruct (decide (key r = Some k0)), (decide (key_in key ks r)),
      (decide (key_in key (k0 :: ks) r)); rewrite ?fmap_cons; simpl;
      try lia; exfalso; naive_solver.
Qed.
End partition.

Lemma group_rows_row_key df k :
  group_rows df k = filter (λ r, row_key r = Some k) df.
Proof.
  unfold group_rows. apply list_filter_iff. intros r. unfold row_key.
  destruct k as [e m], (month r) as [m'|]; simpl; naive_solver.
Qed.

Lemma row_key_in_group_keys df r k :
  r ∈ df → row_key r = Some k → k ∈ group_keys df.
Proof.
  intros Hr Hk. apply elem_of_group_keys. rewrite group_rows_row_key.
  intros Hnil. exact (filter_nil_not_elem_of _ _ r Hnil Hk Hr).
Qed.

Lemma monthly_scores_sum (P : string * Z → Prop) `{!∀ k, Decision (P k)} df :
  sum_Z (ms_score <$>
           filter (λ s, P (ms_employee s, ms_month s)) (monthly_scores df)) =
  sum_Z (score <$> filter (key_in row_key (filter P (group_keys df))) df).
Proof.
  unfold monthly_scores. rewrite filter_fmap, <-list_fmap_compose. simpl.
  rewrite <-(sum_by_groups row_key score) by apply list.NoDup_filter, NoDup_group_keys.
  f_equal. rewrite (list_filter_iff _ P); last first.
  { intros [e m]. done. }
  apply list_fmap_ext. intros _ k _. simpl. by rewrite group_rows_row_key.
Qed.

Lemma sum_Z_score_filter (Q : row → Prop) `{!∀ r, Decision (Q r)} df :
  sum_Z (score <$> filter Q df) =
  Z.of_nat (length (filter (λ r, sentiment_label r = Positive ∧ Q r) df)) -
  Z.of_nat (length (filter (λ r, sentiment_label r = Negative ∧ Q r) df)).
Proof. by rewrite sum_Z_score, !list_filter_filter. Qed.

(** X15. The scores of one month add up to the number of Positive
    messages of that month minus the number of its Negative messages. *)
Theorem monthly_scores_month_total df m :
  sum_Z (ms_score <$> filter (λ s, ms_month s = m) (monthly_scores df)) =
  Z.of_nat (length (filter (λ r, sentiment_label r = Positive ∧ month r = Some m) df)) -
  Z.of_nat (length (filter (λ r, sentiment_label r = Negative ∧ month r = Some m) df)).
Proof.
  rewrite <-sum_Z_score_filter.
  etrans; [exact (monthly_scores_sum (λ k, k.2 = m) df)|]. do 2 f_equal.
  apply filter_ext_elem. intros r Hr. unfold key_in.
  destruct (row_key r) as [[e m']|] eqn:Hk; simpl.
  - rewrite list_elem_of_filter. simpl. unfold row_key in Hk.
    destruct (month r) as [m''|] eqn:Hm; simplify_eq/=.
    split; [by intros [-> _] | intros [= ->]].
    split; [done|]. apply (row_key_in_group_keys df r); [done|].
    unfold row_key. by rewrite Hm.
  - unfold row_key in Hk. destruct (month r); simplify_eq/=. naive_solver.
Qed.

(** X16. The scores of one employee add up to the number of the
    employee's dated Positive messages minus the number of the employee's
    dated Negative messages. *)
Theorem monthly_scores_employee_total df emp :
  sum_Z (ms_score <$> filter (λ s, ms_employee s = emp) (monthly_scores df)) =
  Z.of_nat (length (filter (λ r, sentiment_label r = Positive ∧
                                 (employee r = emp ∧ is_Some (date r))) df)) -
  Z.of_nat (length (filter (λ r, sentiment_label r = Negative ∧
                                 (employee r = emp ∧ is_Some (date r))) df)).
Proof.
  rewrite <-sum_Z_score_filter.
  etrans; [exact (monthly_scores_sum (λ k, k.1 = emp) df)|]. do 2 f_equal.
  apply filter_ext_elem. intros r Hr. unfold key_in.
  destruct (row_key r) as [[e m']|] eqn:Hk; simpl.
  - rewrite list_elem_of_filter. simpl. unfold row_key, month in Hk.
    destruct (date r) as [t|] eqn:Hd; simplify_eq/=.
    split; [by intros [-> _] | intros [<- _]].
    split; [done|]. apply (row_key_in_group_keys df r); [done|].
    unfold row_key, month. by rewrite Hd.
  - unfold row_key, month in Hk. destruct (date r); simplify_eq/=.
    split; [done | by intros [_ [? [=]]]].
Qed.

Example monthly_scores_totals_sample :
  let df := [Row "bob" (Some (day 1)) Positive None; Row "amy" (Some (day 2)) Negative None;
             Row "bob" (Some (day 40)) Positive None; Row "bob" None Positive None;
             Row "amy" (Some (day 41)) Positive None]%string in
  sum_Z (ms_score <$> filter (λ s, ms_month s = 0) (monthly_scores df)) = 0 ∧
  sum_Z (ms_score <$> filter (λ s, ms_employee s = "bob"%string) (monthly_scores df)) = 2.
Proof. split; vm_compute; reflexivity. Qed.

(** ** The monthly trend table *)

Lemma elem_of_month_label_size df p :
  p ∈ month_label_size df ↔
  p.2 = length (month_label_rows df p.1) ∧ month_label_rows df p.1 ≠ [].
Proof.
  unfold month_label_size. rewrite list_elem_of_fmap.
  setoid_rewrite merge_sort_Permutation. setoid_rewrite elem_of_remove_dups.
  setoid_rewrite list_elem_of_omap. split.
  - intros (k & -> & r & Hr & Hk). split; [done|]. simpl.
    destruct (month r) as [m|] eqn:Hm; simplify_eq/=.
    intros Hnil. unfold month_label_rows in Hnil.
    by apply (filter_nil_not_elem_of _ _ r) in Hnil.
  - destruct p as [k n]. simpl. intros [-> Hne]. exists k. split; [done|].
    destruct (month_label_rows df k) as [|r g] eqn:Hg; [done|].
    assert (r ∈ month_label_rows df k) as Hr by (rewrite Hg; left).
    apply list_elem_of_filter in Hr as [[Hm Hl] Hr].
    exists r. split; [done|]. rewrite Hm. simpl. rewrite Hl. by destruct k.
Qed.

Lemma size_at_count df k :
  from_option Z.of_nat 0 (size_at (month_label_size df) k) =
  Z.of_nat (length (month_label_rows df k)).
Proof.
  unfold size_at.
  destruct (list_find (λ p, p.1 = k) (month_label_size df)) as [[i p]|] eqn:Hf;
    simpl.
  - apply list_find_Some in Hf as (Hi & <- & _).
    apply list_elem_of_lookup_2, elem_of_month_label_size in Hi as [-> _]. done.
  - apply list_find_None in Hf.
    destruct (month_label_rows df k) as [|r g] eqn:Hg; [done|]. exfalso.
    assert ((k, length (month_label_rows df k)) ∈ month_label_size df) as Hin.
    { apply elem_of_month_label_size. simpl. split; [done|]. by rewrite Hg. }
    apply (proj1 (list.Forall_forall _ _) Hf) in Hin. by apply Hin.
Qed.

(** X17. Every cell of the monthly trend table is the number of
    messages of its month that carry its label, 0 included. *)
Theorem sentiment_monthly_cells df m cells l n :
  (m, cells) ∈ sentiment_monthly df → (l, n) ∈ cells →
  n = Z.of_nat (length (filter (λ r, month r = Some m ∧ sentiment_label r = l) df)).
Proof.
  unfold sentiment_monthly.
  intros (m' & [= -> ->] & _)%list_elem_of_fmap (l' & [= -> ->] & _)%list_elem_of_fmap.
  apply size_at_count.
Qed.

Lemma sentiment_monthly_cells_witness :
  let df := [Row "bob" (Some (day 1)) Positive None; Row "amy" (Some (day 2)) Positive None;
             Row "bob" (Some (day 40)) Negative None]%string in
  sentiment_monthly df = [(0, [(Negative, 0); (Positive, 2)]);
                          (1, [(Negative, 1); (Positive, 0)])] ∧
  0 = Z.of_nat (length (filter (λ r, month r = Some 1 ∧ sentiment_label r = Positive) df)).
Proof.
  intros df.
  assert (sentiment_monthly df = [(0, [(Negative, 0); (Positive, 2)]);
                                  (1, [(Negative, 1); (Positive, 0)])]) as Heq
    by (vm_compute; reflexivity).
  split; [exact Heq|].
  apply (sentiment_monthly_cells df 1 [(Negative, 1); (Positive, 0)] Positive 0).
  - rewrite Heq. right. left.
  - right. left.
Defined.

Lemma sum_Z_ones {A} (l : list A) : sum_Z ((λ _, 1) <$> l) = Z.of_nat (length l).
Proof. induction l as [|x l IH]; [done|]. rewrite fmap_cons. simpl. lia. Qed.

(** X18. The cells of a row of the monthly trend table add up to the
    number of messages of that month, and the table has a row for a month
    exactly when the frame has a message of that month. *)
Theorem sentiment_monthly_row_total df m :
  (∀ cells, (m, cells) ∈ sentiment_monthly df →
     sum_Z (snd <$> cells) =
     Z.of_nat (length (filter (λ r, month r = Some m) df))) ∧
  (m ∈ fst <$> sentiment_monthly df ↔ ∃ r, r ∈ df ∧ month r = Some m).
Proof.
  split.
  - unfold sentiment_monthly. intros cells (m' & [= <- ->] & _)%list_elem_of_fmap.
    rewrite <-list_fmap_compose.
    set (columns := merge_sort label_le
                      (remove_dups ((λ p, p.1.2) <$> month_label_size df))).
    set (key := λ r : row, if decide (month r = Some m)
                           then Some (sentiment_label r) else None).
    rewrite (list_fmap_ext _
      (λ l, sum_Z ((λ _, 1) <$> filter (λ r, key r = Some l) df)) columns);
      last first.
    { intros _ l _. simpl. rewrite size_at_count, sum_Z_ones. do 2 f_equal.
      apply list_filter_iff. intros r. unfold key. simpl.
      case_decide; naive_solver. }
    rewrite (sum_by_groups key (λ _, 1)); last first.
    { unfold columns. rewrite merge_sort_Permutation. apply NoDup_remove_dups. }
    rewrite sum_Z_ones. do 2 f_equal. apply filter_ext_elem.
    intros r Hr. unfold key_in, key. case_decide as Hm; simpl; [|done].
    split; [done|]. intros _. unfold columns.
    rewrite merge_sort_Permutation, elem_of_remove_dups, list_elem_of_fmap.
    exists ((m, sentiment_label r),
            length (month_label_rows df (m, sentiment_label r))).
    split; [done|]. apply elem_of_month_label_size. simpl. split; [done|].
    intros Hnil. unfold month_label_rows in Hnil.
    by apply (filter_nil_not_elem_of _ _ r) in Hnil.
  - unfold sentiment_monthly.
    assert (∀ (g : Z → list (sentiment * Z)) (ms : list Z),
              fst <$> ((λ m', (m', g m')) <$> ms) = ms) as ->.
    { intros g ms. induction ms as [|m' ms IH]; [done|].
      rewrite !fmap_cons. simpl. by rewrite IH. }
    rewrite merge_sort_Permutation, elem_of_remove_dups, list_elem_of_fmap.
    split.
    + intros ([[m' l] n] & -> & [_ Hne]%elem_of_month_label_size). simpl in *.
      destruct (month_label_rows df (m', l)) as [|r g] eqn:Hg; [done|].
      assert (r ∈ month_label_rows df (m', l)) as Hr by (rewrite Hg; left).
      apply list_elem_of_filter in Hr as [[Hm _] Hr]. by exists r.
    + intros (r & Hr & Hm).
      exists ((m, sentiment_label r),
              length (month_label_rows df (m, sentiment_label r))).
      split; [done|]. apply elem_of_month_label_size. simpl. split; [done|].
      intros Hnil. unfold month_label_rows in Hnil.
      by apply (filter_nil_not_elem_of _ _ r) in Hnil.
Qed.

(** ** Rankings: order, the rows that are kept, repetition *)

(** X19. The ranking is ordered by month and, within a month, by score:
    descending for the best ranking, ascending for the worst. *)
Theorem rank_top_ordered k d scores i j a b :
  rank_top k d scores !! i = Some a → rank_top k d scores !! j = Some b →
  (i < j)%nat →
  ms_month a ≤ ms_month b ∧
  (ms_month a = ms_month b → score_le d (ms_score a) (ms_score b)).
Proof.
  intros Ha Hb Hij.
  assert (rank_le d a b) as [Hm Hs].
  { apply (StronglySorted_lookup_le (rank_le d) (rank_top k d scores) i j);
      [apply rank_top_sorted | lia | done..]. }
  split; [done|]. intros Heq. simpl in *.
  destruct Hs as [Hs _]; [lia | done].
Qed.

Lemma rank_top_ordered_witness :
  score_le best (ms_score (ScoreRow "eve" 5 7)) (ms_score (ScoreRow "al" 5 2)).
Proof.
  refine (proj2 (rank_top_ordered 3 best
    [ScoreRow "al" 5 2; ScoreRow "eve" 5 7; ScoreRow "bo" 4 0]%string
    1 2 (ScoreRow "eve" 5 7) (ScoreRow "al" 5 2) _ _ _) eq_refl);
    [vm_compute; reflexivity | vm_compute; reflexivity | lia].
Defined.

(** X20. The rows a ranking leaves out are never better than the rows of
    the same month it keeps: a kept row comes first in the ranking order,
    by score and, at equal score, by employee. *)
Theorem rank_top_keeps_best k d scores a b :
  a ∈ rank_top k d scores → b ∈ scores → b ∉ rank_top k d scores →
  ms_month a = ms_month b →
  score_le d (ms_score a) (ms_score b) ∧
  (ms_score a = ms_score b → String.le (ms_employee a) (ms_employee b)).
Proof.
  unfold rank_top, groupby_month_head.
  set (t := merge_sort (rank_le d) scores).
  set (limit := λ m, if 0 <=? k then k else Z.of_nat (group_size t m) + k).
  intros (i & Hi & Hlt)%elem_of_head_from Hb Hout Hm.
  assert (b ∈ t) as [j Hj]%list_elem_of_lookup_1
    by (unfold t; by rewrite merge_sort_Permutation).
  assert (¬ Z.of_nat (group_size (take j t) (ms_month b)) < limit (ms_month b))
    as Hge.
  { intros Hlt'. apply Hout, elem_of_head_from. by exists j. }
  simpl in Hlt. rewrite Hm in Hlt.
  assert (i < j)%nat as Hij.
  { destruct (decide (i < j)%nat); [done|].
    pose proof (group_size_take_mono t i j (ms_month b)). lia. }
  assert (rank_le d a b) as [_ Hs].
  { apply (StronglySorted_lookup_le (rank_le d) t i j);
      [apply StronglySorted_merge_sort; apply _ | lia | done..]. }
  simpl in Hs. destruct Hs as [Hs He]; [lia|]. split; [done|].
  intros Heq. apply He. rewrite Heq. apply reflexivity.
Qed.

Lemma rank_top_keeps_best_witness :
  let scores := [ScoreRow "al" 5 2; ScoreRow "eve" 5 7; ScoreRow "bo" 5 0;
                 ScoreRow "cy" 5 2; ScoreRow "di" 5 1]%string in
  score_le best (ms_score (ScoreRow "cy" 5 2)) (ms_score (ScoreRow "di" 5 1)).
Proof.
  intros scores.
  refine (proj1 (rank_top_keeps_best 3 best scores
                   (ScoreRow "cy" 5 2) (ScoreRow "di" 5 1) _ _ _ eq_refl)).
  - vm_compute. right. right. left.
  - vm_compute. do 4 right. left.
  - vm_compute. intros H. repeat (apply elem_of_cons in H as [H|H]; [discriminate H|]).
    by apply elem_of_nil in H.
Defined.

Lemma merge_sort_rank_sorted d t :
  StronglySorted (rank_le d) t → merge_sort (rank_le d) t = t.
Proof.
  intros Ht. apply (StronglySorted_unique (rank_le d));
    [apply StronglySorted_merge_sort; apply _ | done |].
  apply merge_sort_Permutation.
Qed.

(** A second pass of the same [head] keeps every row of the first. *)
Lemma head_from_again limit seen seen' t :
  (∀ m, group_size seen' m ≤ group_size seen m)%nat →
  head_from limit seen' (head_from limit seen t) = head_from limit seen t.
Proof.
  revert seen seen'. induction t as [|x t IH]; intros seen seen' Hle; [done|].
  simpl. case_decide as Hx.
  - simpl. rewrite decide_True by (specialize (Hle (ms_month x)); lia).
    f_equal. apply IH. intros m. rewrite !group_size_snoc.
    specialize (Hle m). lia.
  - apply IH. intros m. rewrite group_size_snoc. specialize (Hle m). lia.
Qed.

(** X21. Ranking a ranking again changes nothing (non-negative [k]). *)
Theorem rank_top_idempotent k d scores :
  0 ≤ k → rank_top k d (rank_top k d scores) = rank_top k d scores.
Proof.
  intros Hk. unfold rank_top at 1.
  rewrite (merge_sort_rank_sorted d) by apply rank_top_sorted.
  unfold rank_top. rewrite !groupby_month_head_nonneg by done.
  by apply head_from_again.
Qed.

Lemma rank_top_idempotent_witness :
  let scores := [ScoreRow "al" 5 2; ScoreRow "eve" 5 7; ScoreRow "bo" 5 0;
                 ScoreRow "cy" 5 2; ScoreRow "di" 4 1]%string in
  top_3_neg (top_3_neg scores) = top_3_neg scores.
Proof. intros scores. apply rank_top_idempotent. lia. Defined.

Lemma head_from_whole_month limit seen t m :
  Z.of_nat (group_size seen m + group_size t m) ≤ limit m →
  filter (λ s, ms_month s = m) (head_from limit seen t) =
  filter (λ s, ms_month s = m) t.
Proof.
  revert seen. induction t as [|x t IH]; intros seen Hle; [done|].
  rewrite group_size_cons in Hle. simpl. rewrite (filter_cons _ x t).
  destruct (decide (ms_month x = m)) as [Hm|Hm].
  - rewrite Hm. rewrite decide_True by lia. rewrite filter_cons_True by done.
    f_equal. apply IH. rewrite group_size_snoc, decide_True by done. lia.
  - case_decide; [rewrite filter_cons_False by done|];
      (apply IH; rewrite group_size_snoc, decide_False by done; lia).
Qed.

(** X22. A month with at most [k] score rows appears whole in the best
    and in the worst ranking. *)
Theorem rank_top_small_month k d scores m :
  Z.of_nat (group_size scores m) ≤ k →
  filter (λ s, ms_month s = m) (rank_top k d scores) ≡ₚ
  filter (λ s, ms_month s = m) scores.
Proof.
  intros Hk. unfold rank_top.
  rewrite groupby_month_head_nonneg by lia.
  rewrite head_from_whole_month.
  - by rewrite merge_sort_Permutation.
  - change (group_size [] m) with 0%nat.
    rewrite (group_size_Permutation _ scores) by apply merge_sort_Permutation.
    lia.
Qed.

Lemma rank_top_small_month_witness :
  let scores := [ScoreRow "al" 5 2; ScoreRow "eve" 5 7; ScoreRow "di" 4 1]%string in
  filter (λ s, ms_month s = 5) (top_3_neg scores) ≡ₚ
  filter (λ s, ms_month s = 5) scores.
Proof. intros scores. apply rank_top_small_month. vm_compute. congruence. Defined.

Lemma monthly_scores_keys df :
  (λ s, (ms_employee s, ms_month s)) <$> monthly_scores df = group_keys df.
Proof.
  unfold monthly_scores. rewrite <-list_fmap_compose.
  rewrite (list_fmap_ext _ id (group_keys df)); [by rewrite list_fmap_id|].
  by intros _ [e m] _.
Qed.

(** X23. In the top-3 rankings of the monthly scores, every month that
    has a dated message holds between one and three rows, and no employee
    appears twice in a month. *)
Theorem top_3_of_monthly_scores d df m :
  let top := rank_top 3 d (monthly_scores df) in
  ((∃ r, r ∈ df ∧ month r = Some m) →
     (1 ≤ group_size top m ≤ 3)%nat) ∧
  NoDup ((λ s, (ms_employee s, ms_month s)) <$> top).
Proof.
  intros top. split.
  - intros (r & Hr & Hm).
    pose proof (group_size_groupby_month_head 3
                  (merge_sort (rank_le d) (monthly_scores df)) m) as Hsize.
    rewrite (group_size_Permutation (merge_sort (rank_le d) (monthly_scores df))
               (monthly_scores df)) in Hsize by apply merge_sort_Permutation.
    simpl in Hsize. fold (rank_top 3 d (monthly_scores df)) in Hsize.
    fold top in Hsize.
    assert (1 ≤ group_size (monthly_scores df) m)%nat; [|lia].
    assert ((employee r, m) ∈ group_keys df) as Hk.
    { apply (row_key_in_group_keys df r); [done|]. unfold row_key.
      by rewrite Hm. }
    rewrite <-monthly_scores_keys in Hk.
    apply list_elem_of_fmap in Hk as (s & Hs & Hin).
    unfold group_size.
    assert (s ∈ filter (λ x, ms_month x = m) (monthly_scores df)) as Hf.
    { apply list_elem_of_filter. split; [by simplify_eq|done]. }
    destruct (filter _ (monthly_scores df)); [by apply elem_of_nil in Hf|].
    simpl. lia.
  - apply (sublist_NoDup _ ((λ s, (ms_employee s, ms_month s)) <$>
                              merge_sort (rank_le d) (monthly_scores df))).
    { rewrite merge_sort_Permutation, monthly_scores_keys.
      apply NoDup_group_keys. }
    apply fmap_sublist, rank_top_sublist.
Qed.

Lemma top_3_of_monthly_scores_witness :
  let df := [Row "bob" (Some (day 1)) Positive None; Row "amy" (Some (day 2)) Negative None;
             Row "cy" (Some (day 3)) Neutral None; Row "di" (Some (day 4)) Positive None;
             Row "bob" (Some (day 5)) Positive None]%string in
  (1 ≤ group_size (top_3_pos (monthly_scores df)) 0 ≤ 3)%nat.
Proof.
  intros df. apply (top_3_of_monthly_scores best df 0).
  exists (Row "amy" (Some (day 2)) Negative None). split; [right; left | reflexivity].
Defined.

(** ** Feature table: counts and means *)

Lemma nan_count_body (g : list row) :
  nan_count (body <$> g) = length (omap body g).
Proof.
  unfold nan_count. induction g as [|r g IH]; [done|].
  rewrite fmap_cons, filter_cons, omap_cons.
  destruct (body r) as [b|] eqn:Hb.
  - rewrite decide_True by done. simpl. by rewrite IH.
  - rewrite decide_False; [done|]. by intros [? [=]].
Qed.

Lemma length_omap_le {A B} (f : A → option B) (l : list A) :
  (length (omap f l) ≤ length l)%nat.
Proof.
  induction l as [|x l IH]; [done|]. rewrite omap_cons.
  destruct (f x); simpl; lia.
Qed.

(** X24. The feature table cannot be built for a frame that has rows
    but not one body. When it is built, [msg_count] is the number of the
    group's messages that have a body, [avg_length] is NaN exactly when that
    number is 0, and the score is the one of the monthly score table. *)
Theorem features_counts df :
  (features df = inl AttributeError ↔
   df ≠ [] ∧ Forall (λ r, body r = None) df) ∧
  ∀ fs f,
    features df = inr fs → f ∈ fs →
    let g := group_rows df (ft_employee f, ft_month f) in
    msg_count f = length (omap body g) ∧
    (msg_count f ≤ length g)%nat ∧
    (avg_length f = None ↔ msg_count f = 0%nat) ∧
    ScoreRow (ft_employee f) (ft_month f) (ft_score f) ∈ monthly_scores df.
Proof.
  unfold features. split.
  - case_decide as Hn; split; done.
  - intros fs f Hfs Hf. case_decide; [done|]. simplify_eq.
    apply list_elem_of_fmap in Hf as ([e m] & -> & Hk). simpl.
    rewrite nan_count_body. unfold nan_mean. rewrite nan_count_msg_length.
    split; [done|]. split; [apply length_omap_le|]. split.
    + case_decide; naive_solver.
    + unfold monthly_scores. apply list_elem_of_fmap. by exists (e, m).
Qed.

Lemma features_counts_witness :
  let df := [Row "bob" (Some (day 1)) Positive (Some "abcd");
             Row "bob" (Some (day 2)) Neutral None;
             Row "bob" (Some (day 3)) Neutral (Some "ab")]%string in
  msg_count (FeatureRow "bob" 0 1 (Some (3 # 1)%Q) 2) =
  length (omap body (group_rows df ("bob"%string, 0))).
Proof.
  intros df.
  refine (proj1 (proj2 (features_counts df)
                   [FeatureRow "bob" 0 1 (Some (3 # 1)%Q) 2]%string _ _ _));
    [vm_compute; reflexivity | left].
Defined.
